(** * HAAD plugin: the text passes, the position key and the merge

    A shallow embedding of [plugin/HAADPlugin.py].

    - Record lines are lists of characters; a file is the list of its lines.
    - Python exceptions are the [Raise] results of an error monad.
    - Coordinates are exact rationals standing for the floats of the source;
      a distance is carried as its square, so that comparing two distances,
      or a distance with [2.0], is a comparison of rationals.
    - Atoms and residues live in one heap and are named by references, as
      Python objects are: the merge mutates atoms and residues in place, and
      the original and the deserialized structure are both lists of residue
      references into that heap. *)

From Stdlib Require Import ZArith QArith Qround Ascii String Sorted Lia Lqa.
From stdpp Require Import base option list gmap.

Local Open Scope nat_scope.

(** ** Exceptions *)

Inductive exn : Type :=
  | ValueError
  | IndexError
  | NameError
  | UnboundLocalError
  | TypeError.

Inductive result (A : Type) : Type :=
  | Ok (a : A)
  | Raise (e : exn).

Arguments Ok {A} a.
Arguments Raise {A} e.

Definition bind {A B : Type} (m : result A) (k : A -> result B) : result B :=
  match m with
  | Ok a => k a
  | Raise e => Raise e
  end.

Notation "x <~ m ;; k" := (bind m (fun x => k))
  (at level 100, m at next level, right associativity).

(** ** Record lines *)

Module Text.

Abbreviation line := (list ascii).

Definition blank : ascii := " "%char.
Definition newline : ascii := ascii_of_nat 10.

(** [s[a:b]] for [0 <= a <= b]: a Python slice clips at the end of [s]. *)
Definition slice (s : line) (a b : nat) : line := take (b - a) (drop a s).

(** [s[a:-2]]: from [a] up to, not including, the last two characters. *)
Definition slice_to_last2 (s : line) (a : nat) : line :=
  drop a (take (length s - 2) s).

(** [s[i]] on a string: [IndexError] past the end. *)
Definition index (s : line) (i : nat) : result ascii :=
  match s !! i with
  | Some c => Ok c
  | None => Raise IndexError
  end.

Definition is_digit (c : ascii) : bool :=
  (48 <=? nat_of_ascii c) && (nat_of_ascii c <=? 57).

(** [int(c)] for a one-character string [c]: the digit's value, and
    [ValueError] for every other character (a sign, a letter, white space). *)
Definition int (c : ascii) : result Z :=
  if is_digit c then Ok (Z.of_nat (nat_of_ascii c) - 48)%Z
  else Raise ValueError.

(** [len(line) > 56 and line[56] != " " and int(line[56]) < 2], with the
    short-circuit evaluation of [and]. *)
Definition is_new_hydrogen (l : line) : result bool :=
  if negb (56 <? length l) then Ok false
  else
    let c := nth 56 l blank in
    if Ascii.eqb c blank then Ok false
    else n <~ int c ;; Ok (n <? 2)%Z.

(** The loop of [call_HAAD] over the lines of the output file: [id] counts
    the lines, [new_hydrogens] collects the indices. *)
Fixpoint new_hydrogens_loop (lines : list line) (id : nat)
    (new_hydrogens : list nat) : result (list nat) :=
  match lines with
  | [] => Ok new_hydrogens
  | l :: rest =>
      b <~ is_new_hydrogen l ;;
      new_hydrogens_loop rest (S id)
        (if b then new_hydrogens ++ [id] else new_hydrogens)
  end.

Definition new_hydrogens (lines : list line) : result (list nat) :=
  new_hydrogens_loop lines 0 [].

(** *** Chain repair *)

(** [len(lines[i]) > 22] and [lines[i][21] != " "]. *)
Definition chain_bearing (l : line) : bool :=
  (22 <? length l) && negb (Ascii.eqb (nth 21 l blank) blank).

(** [for i in range(id - 1, -1, -1)]: [n] is the number of lines still to
    visit, the next one is [lines[n - 1]].  The variable [l] is bound at the
    first chain-bearing line; when the range is exhausted it keeps whatever
    binding it had ([None]: never assigned). *)
Fixpoint scan_back (lines : list line) (n : nat) (l : option line)
    : option line :=
  match n with
  | 0 => l
  | S i =>
      let li := nth i lines [] in
      if chain_bearing li then Some li else scan_back lines i l
  end.

(** [line[17:17+4] == l[17:17+4] and line[23:23+4] == l[23:23+4]]. *)
Definition same_residue (l1 l2 : line) : bool :=
  bool_decide (slice l1 17 21 = slice l2 17 21)
  && bool_decide (slice l1 23 27 = slice l2 23 27).

(** ["1.00 1.00            H \n"] *)
Definition placeholder : line :=
  list_ascii_of_string "1.00 1.00            H " ++ [newline].

(** [cur[:21] + c + cur[22:-2] + "1.00 1.00            H \n"] *)
Definition repair (cur : line) (c : ascii) : line :=
  slice cur 0 21 ++ [c] ++ slice_to_last2 cur 22 ++ placeholder.

(** The loop of [fix_haad_chains].  [lines] is the list read from the file
    and is never modified; [rest] is what the loop has still to visit;
    [output_lines] starts as a copy of [lines].  [l] is the local variable
    of the source, shared by all iterations: reading it before any
    assignment raises [UnboundLocalError]. *)
Fixpoint fix_loop (lines rest : list line) (id : nat) (l : option line)
    (output_lines : list line) : result (list line) :=
  match rest with
  | [] => Ok output_lines
  | cur :: rest' =>
      b <~ is_new_hydrogen cur ;;
      if b && (0 <? id) then
        let l' := scan_back lines id l in
        match l' with
        | None => Raise UnboundLocalError
        | Some lv =>
            if same_residue cur lv then
              c <~ index lv 21 ;;
              fix_loop lines rest' (S id) l'
                (<[id := repair (nth id output_lines []) c]> output_lines)
            else fix_loop lines rest' (S id) l' output_lines
        end
      else fix_loop lines rest' (S id) l output_lines
  end.

(** [fix_haad_chains]: from the lines read to the lines written back.  When
    the loop raises, the file is not rewritten. *)
Definition fix_haad_chains (lines : list line) : result (list line) :=
  fix_loop lines lines 0 None lines.

End Text.

(** ** Position keys *)

Module Key.

Local Open Scope Q_scope.

(** [round(q)] to the nearest integer, ties to the even one, as Python's
    [round] does on the exact value of its argument. *)
Definition round_half_even (q : Q) : Z :=
  let f := Qfloor q in
  match Qcompare (q - inject_Z f) (1 # 2) with
  | Lt => f
  | Gt => (f + 1)%Z
  | Eq => if Z.even f then f else (f + 1)%Z
  end.

(** [round(x, 4)] *)
Definition round4 (x : Q) : Q :=
  inject_Z (round_half_even (x * 10000)) / 10000.

(** [int(q)]: truncation toward zero. *)
Definition trunc (q : Q) : Z := Z.quot (Qnum q) (Zpos (Qden q)).

(** [int(50 * round(x, 4))] *)
Definition coord_key (x : Q) : Z := trunc (50 * round4 x).


End Key.

(** ** Structures *)

Record Vector3 : Type := mkVector3 { vx : Q; vy : Q; vz : Q }.

(** [Vector3.distance(p, q)], squared. *)
Definition distance_sq (p q : Vector3) : Q :=
  ((vx p - vx q) * (vx p - vx q)
   + (vy p - vy q) * (vy p - vy q)
   + (vz p - vz q) * (vz p - vz q))%Q.

(** [a < b] on rationals, as a boolean. *)
Definition Qltb (a b : Q) : bool := negb (Qle_bool b a).

Abbreviation aref := nat.
Abbreviation rref := nat.

Inductive Kind : Type := CovalentSingle | CovalentDouble | CovalentTriple | Aromatic.

Record Atom : Type := mkAtom {
  symbol : string;
  serial : Z;
  position : Vector3;
  residue : rref;
  display_mode : Z;
  is_het : bool;
  selected : bool;
  bfactor : Q;
  occupancy : Q
}.

Record Bond : Type := mkBond { kind : Kind; atom1 : aref; atom2 : aref }.

Record Residue : Type := mkResidue { r_atoms : list aref; r_bonds : list Bond }.

(** The diagnostic of the merge:
    [H {serial} bonded with unknown atom {symbol} at {position}]. *)
Record Warning : Type := mkWarning {
  w_serial : Z;
  w_symbol : string;
  w_position : Vector3
}.

Record Heap : Type := mkHeap {
  h_atoms : list Atom;
  h_residues : list Residue;
  h_log : list Warning
}.

(** A structure, flattened to the residues it owns, in order. *)
Abbreviation Complex := (list rref).

Abbreviation PositionKey := (Z * Z * Z)%type.

Definition dummy_atom : Atom :=
  mkAtom "" 0 (mkVector3 0 0 0) 0 0 false false 0 0.

Definition dummy_residue : Residue := mkResidue [] [].

Definition get_atom (h : Heap) (a : aref) : Atom := nth a (h_atoms h) dummy_atom.

Definition get_residue (h : Heap) (r : rref) : Residue :=
  nth r (h_residues h) dummy_residue.

(** [complex.atoms]: the atoms of all residues, in order. *)
Definition complex_atoms (h : Heap) (c : Complex) : list aref :=
  concat (map (fun r => r_atoms (get_residue h r)) c).

Definition atom_count (h : Heap) (c : Complex) : nat :=
  length (complex_atoms h c).

Definition bond_count (h : Heap) (c : Complex) : nat :=
  length (concat (map (fun r => r_bonds (get_residue h r)) c)).

(** [tuple(map(lambda x: int(50 * round(x, 4)), atom.position))] *)
Definition get_position_key (a : Atom) : PositionKey :=
  (Key.coord_key (vx (position a)),
   Key.coord_key (vy (position a)),
   Key.coord_key (vz (position a))).

(** [atom.symbol = s] *)
Definition with_symbol (s : string) (a : Atom) : Atom :=
  mkAtom s (serial a) (position a) (residue a) (display_mode a)
         (is_het a) (selected a) (bfactor a) (occupancy a).

Definition set_symbol (h : Heap) (a : aref) (s : string) : Heap :=
  mkHeap (alter (with_symbol s) a (h_atoms h)) (h_residues h) (h_log h).

(** [residue._add_bond(bond)] *)
Definition residue_add_bond (b : Bond) (r : Residue) : Residue :=
  mkResidue (r_atoms r) (r_bonds r ++ [b]).

(** [residue.add_atom(atom)], the atom being already in the heap at [a]. *)
Definition residue_add_atom (a : aref) (r : Residue) : Residue :=
  mkResidue (r_atoms r ++ [a]) (r_bonds r).

(** The loop of [get_closest_heavy_atom_in_residue] over [atom.residue.atoms]. *)
Fixpoint closest_loop (h : Heap) (atom : aref) (candidates : list aref)
    (result : option aref) (minD : Q) : option aref * Q :=
  match candidates with
  | [] => (result, minD)
  | a :: rest =>
      if negb (a =? atom) && negb (String.eqb (symbol (get_atom h a)) "H") then
        let d := distance_sq (position (get_atom h a)) (position (get_atom h atom)) in
        if Qltb d minD then closest_loop h atom rest (Some a) d
        else closest_loop h atom rest result minD
      else closest_loop h atom rest result minD
  end.

(** [minD = 10000.0], squared. *)
Definition minD0 : Q := 100000000.

Definition get_closest_heavy_atom_in_residue (h : Heap) (atom : aref)
    : option aref * Q :=
  closest_loop h atom (r_atoms (get_residue h (residue (get_atom h atom))))
    None minD0.

(** [add_bond(atom1, atom2)]: the bond goes to the residue of [atom2]. *)
Definition add_bond (h : Heap) (a1 a2 : aref) : Bond * Heap :=
  let new_bond := mkBond CovalentSingle a1 a2 in
  (new_bond,
   mkHeap (h_atoms h)
          (alter (residue_add_bond new_bond) (residue (get_atom h a2)) (h_residues h))
          (h_log h)).

Definition warn (h : Heap) (w : Warning) : Heap :=
  mkHeap (h_atoms h) (h_residues h) (h_log h ++ [w]).

(** [h_atom._shallow_copy()] followed by the five assignments from
    [source_atom]; the copy becomes a member of [source_atom.residue]. *)
Definition new_hydrogen (h_atom source_atom : Atom) : Atom :=
  mkAtom (symbol h_atom) (serial h_atom) (position h_atom)
         (residue source_atom)
         (display_mode source_atom) (is_het source_atom) (selected source_atom)
         (bfactor source_atom) (occupancy source_atom).

(** [2.0], squared. *)
Definition gate : Q := 4.

(** The body of the loop of [match_and_update] for the atom [h_atom]. *)
Definition merge_one (atom_by_position : gmap PositionKey aref)
    (h_atom : aref) (h : Heap) : Heap :=
  let h1 := set_symbol h h_atom "H" in
  match get_closest_heavy_atom_in_residue h1 h_atom with
  | (None, _) => h1
  | (Some bonded_atom, dist) =>
      if Qltb gate dist then h1
      else
        let '(bond, h2) := add_bond h1 h_atom bonded_atom in
        let bonded_atom_key := get_position_key (get_atom h2 bonded_atom) in
        match atom_by_position !! bonded_atom_key with
        | None =>
            warn h2 (mkWarning (serial (get_atom h2 h_atom))
                               (symbol (get_atom h2 bonded_atom))
                               (position (get_atom h2 bonded_atom)))
        | Some source_atom =>
            let src := get_atom h2 source_atom in
            let new_atom := length (h_atoms h2) in
            let new_bond := mkBond (kind bond) source_atom new_atom in
            mkHeap (h_atoms h2 ++ [new_hydrogen (get_atom h2 h_atom) src])
                   (alter (fun r => residue_add_bond new_bond (residue_add_atom new_atom r))
                          (residue src) (h_residues h2))
                   (h_log h2)
        end
  end.

(** One iteration of [for id in hydrogen_ids], with [h_atom = atoms[id]]. *)
Definition merge_step (atom_by_position : gmap PositionKey aref)
    (atoms : list aref) (id : nat) (h : Heap) : result Heap :=
  match atoms !! id with
  | None => Raise IndexError
  | Some h_atom => Ok (merge_one atom_by_position h_atom h)
  end.

Fixpoint merge_loop (atom_by_position : gmap PositionKey aref)
    (atoms : list aref) (hydrogen_ids : list nat) (h : Heap) : result Heap :=
  match hydrogen_ids with
  | [] => Ok h
  | id :: rest =>
      h' <~ merge_step atom_by_position atoms id h ;;
      merge_loop atom_by_position atoms rest h'
  end.

(** [match_and_update]: [atoms = list(result_complex.atoms)] is taken once,
    before the loop. *)
Definition match_and_update (atom_by_position : gmap PositionKey aref)
    (result_complex : Complex) (hydrogen_ids : list nat) (h : Heap)
    : result Heap :=
  merge_loop atom_by_position (complex_atoms h result_complex) hydrogen_ids h.

(** The index built by [add_hydrogens]: a later atom at the same key
    replaces an earlier one. *)
Definition index_atoms (h : Heap) (atoms : list aref) : gmap PositionKey aref :=
  fold_left (fun m a => <[get_position_key (get_atom h a) := a]> m) atoms ∅.

(** ** The batch *)

Section Batch.

(** [complex.io.to_pdb(path)] followed by the run of the tool on that
    file: the exit code and the lines of the output file. *)
Variable run_haad : Heap -> Complex -> Z * list Text.line.

(** [Complex.io.from_pdb(path)]: the deserialized structure, allocated in
    the heap. *)
Variable from_pdb : list Text.line -> Heap -> Complex * Heap.

(** The evaluation of the name [self] in the module-level function
    [call_HAAD], which has no such parameter and no such global. *)
Definition lookup_self : result unit := Raise NameError.

(** [call_HAAD]; [None] is the value of the bare [return]. *)
Definition call_HAAD (h : Heap) (c : Complex)
    : result (option (Complex * list nat) * Heap) :=
  let '(exit_code, lines) := run_haad h c in
  if negb (exit_code =? 0)%Z then
    _ <~ lookup_self ;;
    Ok (None, h)
  else
    fixed <~ Text.fix_haad_chains lines ;;
    let '(hydrogenated, h') := from_pdb fixed h in
    ids <~ Text.new_hydrogens fixed ;;
    Ok (Some (hydrogenated, ids), h').

(** The loop of [add_hydrogens].  The tuple assignment
    [result_complex, hydrogen_ids = await call_HAAD(...)] raises
    [TypeError] on [None]; past it, [result_complex] is a structure
    object, which is true, so [if not result_complex: continue] is not
    taken. *)
Fixpoint add_hydrogens (complexes : list Complex) (h : Heap) : result Heap :=
  match complexes with
  | [] => Ok h
  | complex :: rest =>
      let atom_by_position := index_atoms h (complex_atoms h complex) in
      r <~ call_HAAD h complex ;;
      match fst r with
      | None => Raise TypeError
      | Some (result_complex, hydrogen_ids) =>
          h' <~ match_and_update atom_by_position result_complex
                  hydrogen_ids (snd r) ;;
          add_hydrogens rest h'
      end
  end.

End Batch.

(** ** Properties the statements are written with *)

Module TextSpec.
Import Text.

(** The status column (column 56) holds a digit of value less than 2. *)
Definition marked (l : line) : bool :=
  match l !! 56 with
  | Some c => is_digit c && (nat_of_ascii c - 48 <? 2)
  | None => false
  end.

(** The status column is absent, blank or a digit. *)
Definition status_ok (l : line) : bool :=
  match l !! 56 with
  | Some c => Ascii.eqb c blank || is_digit c
  | None => true
  end.

(** The indices, counted from [id], of the marked lines. *)
Fixpoint marked_from (lines : list line) (id : nat) : list nat :=
  match lines with
  | [] => []
  | l :: rest =>
      if marked l then id :: marked_from rest (S id)
      else marked_from rest (S id)
  end.

(** Line [j] is the nearest line before line [id] that bears a chain. *)
Definition nearest_chain (lines : list line) (id j : nat) (lv : line) : Prop :=
  j < id /\ lines !! j = Some lv /\ chain_bearing lv = true /\
  forall i li, j < i < id -> lines !! i = Some li -> chain_bearing li = false.

(** No line before line [id] bears a chain. *)
Definition no_chain_before (lines : list line) (id : nat) : Prop :=
  forall i li, i < id -> lines !! i = Some li -> chain_bearing li = false.

(** Some line before line [id] bears a chain. *)
Definition has_chain_before (lines : list line) (id : nat) : Prop :=
  exists j lv, j < id /\ lines !! j = Some lv /\ chain_bearing lv = true.

(** Every marked line but the first has a chain-bearing line before it. *)
Definition chains_found (lines : list line) : Prop :=
  forall k cur, 0 < k -> lines !! k = Some cur -> marked cur = true ->
    has_chain_before lines k.

(** What the repair pass is expected to write for line [k]. *)
Definition expected (lines : list line) (k : nat) (cur : line) : line :=
  if marked cur && (0 <? k) then
    match scan_back lines k None with
    | Some lv => if same_residue cur lv then repair cur (nth 21 lv blank) else cur
    | None => cur
    end
  else cur.

End TextSpec.

Module MergeSpec.

(** [c] is looked at by the search for the partner of [atom]: another
    atom, whose symbol is not that of hydrogen. *)
Definition candidate (h : Heap) (atom c : aref) : Prop :=
  c <> atom /\ symbol (get_atom h c) <> "H"%string.

(** The squared distance from [c] to [atom]. *)
Definition dist_to (h : Heap) (atom c : aref) : Q :=
  distance_sq (position (get_atom h c)) (position (get_atom h atom)).

(** [atom.residue.atoms] *)
Definition residue_atoms_of (h : Heap) (atom : aref) : list aref :=
  r_atoms (get_residue h (residue (get_atom h atom))).

(** The table of residues [rs'] has the residues of [rs], each with its
    atoms and bonds of before followed by new ones; the new atoms are
    references from [n] on. *)
Definition grows (n : nat) (rs rs' : list Residue) : Prop :=
  length rs' = length rs /\
  forall r, exists na nb,
    r_atoms (nth r rs' dummy_residue) = r_atoms (nth r rs dummy_residue) ++ na /\
    r_bonds (nth r rs' dummy_residue) = r_bonds (nth r rs dummy_residue) ++ nb /\
    Forall (fun x => n <= x) na.

(** What one turn of the loop of the merge does to the heap: the symbol
    of the atom is set, atoms are only allocated, and residues only
    receive new atoms and bonds. *)
Record turn (a : aref) (h h' : Heap) : Prop := mkTurn {
  turn_atoms : exists new,
    h_atoms h' = alter (with_symbol "H") a (h_atoms h) ++ new;
  turn_residues : grows (length (h_atoms h)) (h_residues h) (h_residues h')
}.

End MergeSpec.

(** ** Record lines used in the examples *)

Module Fixtures.
Import Text.

Definition blanks (n : nat) : line := replicate n blank.

(** A record line with the given residue name (columns 17-20), chain
    (column 21), residue number (columns 23-26) and status (column 56),
    closed by two more characters and the line end. *)
Definition record (resname : string) (chain : ascii) (resseq : string)
    (status : ascii) : line :=
  blanks 17 ++ list_ascii_of_string resname ++ [chain; blank]
  ++ list_ascii_of_string resseq ++ blanks 29 ++ [status]
  ++ list_ascii_of_string "  " ++ [newline].

(** A line too short to have a chain or a status column. *)
Definition short_line : line := list_ascii_of_string "REMARK" ++ [newline].

Definition heavy_A : line := record "ALA " "A" "   1" " ".
Definition hydrogen_same : line := record "ALA " " " "   1" "1".
Definition hydrogen_other : line := record "GLY " " " "   2" "0".
Definition status_letter : line := record "ALA " "A" "   1" "A".

Definition demo_lines : list line := [heavy_A; hydrogen_same; hydrogen_other].

(** Lines with the statuses "1", "0", none, "2", "9" and blank. *)
Definition five_statuses : list line :=
  [record "ALA " "A" "   1" "1";
   record "ALA " "A" "   1" "0";
   short_line;
   record "ALA " "A" "   1" "2";
   record "ALA " "A" "   1" "9";
   record "ALA " "A" "   1" " "].

End Fixtures.

(** ** A heap used in the examples

    Residue 0 is the original structure: one carbon at the origin, selected,
    with its own display mode, b-factor and occupancy.  Residues 1 to 3 are
    the deserialized structure: the same carbon with two hydrogens, at
    distances 1.99 and 2.01; a hydrogen alone in its residue; a nitrogen
    that the original structure does not have, with its hydrogen. *)

Module MergeFixtures.

Definition origin : Vector3 := mkVector3 0 0 0.

Definition heap0 : Heap :=
  mkHeap
    [ mkAtom "C" 1 origin 0 3 true true (25 # 2) (1 # 2);
      mkAtom "C" 1 origin 1 0 false false 0 1;
      mkAtom "H" 2 (mkVector3 (199 # 100) 0 0) 1 0 false false 0 1;
      mkAtom "H" 3 (mkVector3 0 (201 # 100) 0) 1 0 false false 0 1;
      mkAtom "X" 4 (mkVector3 9 9 9) 2 0 false false 0 1;
      mkAtom "N" 5 (mkVector3 5 5 5) 3 0 false false 0 1;
      mkAtom "H" 6 (mkVector3 (11 # 2) 5 5) 3 0 false false 0 1 ]
    [ mkResidue [0] [];
      mkResidue [1; 2; 3] [];
      mkResidue [4] [];
      mkResidue [5; 6] [] ]
    [].

Definition original : Complex := [0].
Definition deserialized : Complex := [1; 2; 3].

Definition index0 : gmap PositionKey aref :=
  index_atoms heap0 (complex_atoms heap0 original).

(** A tool that fails on the structure [original] and writes an empty
    file for any other. *)
Definition run_first_fails (h : Heap) (c : Complex) : Z * list Text.line :=
  if bool_decide (c = original) then (1%Z, []) else (0%Z, []).

(** A deserializer for the empty file. *)
Definition from_pdb_empty (lines : list Text.line) (h : Heap) : Complex * Heap :=
  ([], h).

(** The heap after the merge of the hydrogens at indices 1, 2, 3 and 5. *)
Definition heap1 : Heap :=
  mkHeap
    [ mkAtom "C" 1 origin 0 3 true true (25 # 2) (1 # 2);
      mkAtom "C" 1 origin 1 0 false false 0 1;
      mkAtom "H" 2 (mkVector3 (199 # 100) 0 0) 1 0 false false 0 1;
      mkAtom "H" 3 (mkVector3 0 (201 # 100) 0) 1 0 false false 0 1;
      mkAtom "H" 4 (mkVector3 9 9 9) 2 0 false false 0 1;
      mkAtom "N" 5 (mkVector3 5 5 5) 3 0 false false 0 1;
      mkAtom "H" 6 (mkVector3 (11 # 2) 5 5) 3 0 false false 0 1;
      mkAtom "H" 2 (mkVector3 (199 # 100) 0 0) 0 3 true true (25 # 2) (1 # 2) ]
    [ mkResidue [0; 7] [mkBond CovalentSingle 0 7];
      mkResidue [1; 2; 3] [mkBond CovalentSingle 2 1];
      mkResidue [4] [];
      mkResidue [5; 6] [mkBond CovalentSingle 6 5] ]
    [ mkWarning 6 "N" (mkVector3 5 5 5) ].


(** A tool that succeeds and writes the three lines of [demo_lines]. *)
Definition run_demo (h : Heap) (c : Complex) : Z * list Text.line :=
  (0%Z, Fixtures.demo_lines).

(** A deserializer that answers with the structure [deserialized]. *)
Definition from_pdb_demo (lines : list Text.line) (h : Heap) : Complex * Heap :=
  (deserialized, h).


End MergeFixtures.

(** ** Well-formed heaps *)

Module HeapSpec.

(** The references of the heap are those of a structure: every atom names
    a residue of the heap and is among its atoms; the atoms of a residue
    are atoms of the heap that name it; the ends of a bond are atoms of the
    heap. *)
Record wf (h : Heap) : Prop := mkWf {
  wf_parent : forall a, a < length (h_atoms h) ->
    residue (get_atom h a) < length (h_residues h);
  wf_owned : forall a, a < length (h_atoms h) ->
    a ∈ r_atoms (get_residue h (residue (get_atom h a)));
  wf_member : forall r a, a ∈ r_atoms (get_residue h r) ->
    a < length (h_atoms h) /\ residue (get_atom h a) = r;
  wf_bond : forall r b, b ∈ r_bonds (get_residue h r) ->
    atom1 b < length (h_atoms h) /\ atom2 b < length (h_atoms h)
}.

End HeapSpec.

(** * Theorems *)

(** ** The hydrogen-identification pass *)

Module TextFacts.
Import Text TextSpec.

Lemma blank_not_digit : is_digit blank = false.
Proof. reflexivity. Qed.

Lemma int_digit c : is_digit c = true ->
  int c = Ok (Z.of_nat (nat_of_ascii c) - 48)%Z.
Proof. unfold int. intros ->. reflexivity. Qed.

Lemma nth_lookup_line (l : line) i c : l !! i = Some c -> nth i l blank = c.
Proof. intros H. rewrite (nth_lookup_Some _ _ _ _ H). reflexivity. Qed.

(** On a line whose status column is absent, blank or a digit, the test of
    the source returns without raising, and says whether the line is marked. *)
Lemma is_new_hydrogen_marked (l : line) :
  status_ok l = true -> is_new_hydrogen l = Ok (marked l).
Proof.
  unfold status_ok, is_new_hydrogen, marked.
  destruct (l !! 56) as [c|] eqn:E.
  - pose proof (lookup_lt_Some _ _ _ E) as Hlen.
    assert ((56 <? length l) = true) as -> by (apply Nat.ltb_lt; lia).
    simpl. rewrite (nth_lookup_line _ _ _ E).
    destruct (Ascii.eqb c blank) eqn:Eb.
    + apply Ascii.eqb_eq in Eb. subst c. reflexivity.
    + simpl. intros Hd. rewrite (int_digit _ Hd), Hd. simpl. f_equal.
      unfold is_digit in Hd. apply andb_true_iff in Hd as [H1 H2].
      apply Nat.leb_le in H1. apply Nat.leb_le in H2.
      destruct (nat_of_ascii c - 48 <? 2) eqn:E2.
      * apply Nat.ltb_lt in E2. apply Z.ltb_lt. lia.
      * apply Nat.ltb_ge in E2. apply Z.ltb_ge. lia.
  - apply lookup_ge_None in E.
    assert ((56 <? length l) = false) as -> by (apply Nat.ltb_ge; lia).
    reflexivity.
Qed.

(** A character that is neither blank nor a digit makes the test raise. *)
Lemma is_new_hydrogen_raises (l : line) c :
  l !! 56 = Some c -> c <> blank -> is_digit c = false ->
  is_new_hydrogen l = Raise ValueError.
Proof.
  intros E Hb Hd. unfold is_new_hydrogen.
  pose proof (lookup_lt_Some _ _ _ E) as Hlen.
  assert ((56 <? length l) = true) as -> by (apply Nat.ltb_lt; lia).
  simpl. rewrite (nth_lookup_line _ _ _ E).
  destruct (Ascii.eqb c blank) eqn:Eb.
  - apply Ascii.eqb_eq in Eb. contradiction.
  - unfold int. rewrite Hd. reflexivity.
Qed.

Lemma new_hydrogens_loop_marked (lines : list line) : forall id acc,
  Forall (fun l => status_ok l = true) lines ->
  new_hydrogens_loop lines id acc = Ok (acc ++ marked_from lines id).
Proof.
  induction lines as [|l rest IH]; intros id acc Hok; simpl.
  - rewrite app_nil_r. reflexivity.
  - inversion Hok as [|? ? Hl Hrest]; subst.
    rewrite (is_new_hydrogen_marked _ Hl). simpl.
    rewrite (IH _ _ Hrest).
    destruct (marked l); [rewrite <- app_assoc|]; reflexivity.
Qed.

(** The test either returns or raises [ValueError], according to the
    status column. *)
Lemma is_new_hydrogen_not_ok (l : line) :
  status_ok l = false -> is_new_hydrogen l = Raise ValueError.
Proof.
  unfold status_ok. destruct (l !! 56) as [c|] eqn:E; [|discriminate].
  intros H. apply orb_false_iff in H as [Hb Hd].
  apply (is_new_hydrogen_raises l c E); [|exact Hd].
  intros ->. rewrite Ascii.eqb_refl in Hb. discriminate.
Qed.

Lemma new_hydrogens_loop_raises (lines : list line) : forall id acc,
  Exists (fun l => status_ok l = false) lines ->
  new_hydrogens_loop lines id acc = Raise ValueError.
Proof.
  induction lines as [|l rest IH]; intros id acc Hex; simpl.
  - inversion Hex.
  - destruct (status_ok l) eqn:El.
    + rewrite (is_new_hydrogen_marked _ El). simpl. apply IH.
      apply Exists_cons in Hex as [Hl | Hrest]; [congruence | exact Hrest].
    + rewrite (is_new_hydrogen_not_ok _ El). reflexivity.
Qed.

Lemma marked_from_elem (lines : list line) : forall id i,
  i ∈ marked_from lines id <->
  exists l, id <= i /\ lines !! (i - id) = Some l /\ marked l = true.
Proof.
  induction lines as [|l rest IH]; intros id i; simpl.
  - split; [intros H; inversion H | intros (l & _ & H & _); discriminate].
  - assert (i ∈ marked_from rest (S id) <->
            exists l', S id <= i /\ (l :: rest) !! (i - id) = Some l' /\ marked l' = true)
      as Hrest.
    { rewrite IH. split; intros (l' & Hle & Hl & Hm); exists l'.
      - replace (i - id) with (S (i - S id)) by lia. auto.
      - replace (i - id) with (S (i - S id)) in Hl by lia. auto. }
    destruct (marked l) eqn:Em.
    + rewrite elem_of_cons, Hrest. split.
      * intros [-> | (l' & Hle & Hl & Hm)].
        -- exists l. rewrite Nat.sub_diag. auto.
        -- exists l'. split; [lia | auto].
      * intros (l' & Hle & Hl & Hm).
        destruct (decide (i = id)) as [-> | Hne]; [left; reflexivity | right].
        exists l'. split; [lia | auto].
    + rewrite Hrest. split.
      * intros (l' & Hle & Hl & Hm). exists l'. split; [lia | auto].
      * intros (l' & Hle & Hl & Hm).
        destruct (decide (i = id)) as [-> | Hne].
        -- rewrite Nat.sub_diag in Hl. simpl in Hl. congruence.
        -- exists l'. split; [lia | auto].
Qed.

Lemma marked_from_lower (lines : list line) : forall id,
  Forall (fun i => id <= i) (marked_from lines id).
Proof.
  intros id. apply Forall_forall. intros i Hi.
  apply marked_from_elem in Hi as (l & Hle & _). exact Hle.
Qed.

Lemma marked_from_sorted (lines : list line) : forall id,
  StronglySorted lt (marked_from lines id).
Proof.
  induction lines as [|l rest IH]; intros id; simpl.
  - constructor.
  - destruct (marked l); [|apply IH].
    constructor; [apply IH|].
    eapply Forall_impl; [apply marked_from_lower|]. simpl. intros; lia.
Qed.

End TextFacts.

(** ** The chain-repair pass *)

Module RepairFacts.
Import Text TextSpec TextFacts.

Ltac split4 := split; [|split; [|split]].

Lemma chain_bearing_nil : chain_bearing [] = false.
Proof. reflexivity. Qed.

Lemma chain_bearing_nth_false (lines : list line) i :
  (forall li, lines !! i = Some li -> chain_bearing li = false) ->
  chain_bearing (nth i lines []) = false.
Proof.
  intros H. destruct (lines !! i) as [li|] eqn:E.
  - rewrite (nth_lookup_Some _ _ _ _ E). apply H. reflexivity.
  - rewrite nth_overflow; [reflexivity|]. apply lookup_ge_None. exact E.
Qed.

(** The backward scan stops at the nearest chain-bearing line, whatever the
    variable [l] was bound to before. *)
Lemma scan_back_nearest (lines : list line) id j lv l :
  nearest_chain lines id j lv -> scan_back lines id l = Some lv.
Proof.
  induction id as [|id IH]; intros (Hj & Hl & Hc & Hn); [lia|].
  simpl. destruct (decide (j = id)) as [-> | Hne].
  - rewrite (nth_lookup_Some _ _ _ _ Hl), Hc. reflexivity.
  - rewrite chain_bearing_nth_false.
    + apply IH. repeat split; [lia | assumption | assumption |].
      intros i li Hi. apply Hn. lia.
    + intros li Hli. apply (Hn id); [lia | assumption].
Qed.

(** With no chain-bearing line to find, the scan leaves [l] as it was. *)
Lemma scan_back_none (lines : list line) id l :
  no_chain_before lines id -> scan_back lines id l = l.
Proof.
  induction id as [|id IH]; intros Hn; [reflexivity|].
  simpl. rewrite chain_bearing_nth_false.
  - apply IH. intros i li Hi. apply Hn. lia.
  - intros li Hli. apply (Hn id); [lia | assumption].
Qed.

Lemma has_chain_nearest (lines : list line) id :
  has_chain_before lines id -> exists j lv, nearest_chain lines id j lv.
Proof.
  induction id as [|id IH]; intros (j & lv & Hj & Hl & Hc); [lia|].
  destruct (lines !! id) as [li|] eqn:E.
  - destruct (chain_bearing li) eqn:Ec.
    + exists id, li. repeat split; [lia | assumption | assumption |].
      intros i ? Hi. lia.
    + destruct IH as (j' & lv' & Hj' & Hl' & Hc' & Hn').
      { destruct (decide (j = id)) as [-> | Hne]; [congruence|].
        exists j, lv. repeat split; [lia | assumption | assumption]. }
      exists j', lv'. repeat split; [lia | assumption | assumption |].
      intros i li' Hi Hli'. destruct (decide (i = id)) as [-> | Hne].
      * congruence.
      * apply (Hn' i); [lia | assumption].
  - pose proof (lookup_lt_Some _ _ _ Hl) as Hlt.
    pose proof (proj1 (lookup_ge_None _ _) E) as Hge.
    destruct IH as (j' & lv' & Hj' & Hl' & Hc' & Hn').
    { exists j, lv. repeat split; [lia | assumption | assumption]. }
    exists j', lv'. repeat split; [lia | assumption | assumption |].
    intros i li' Hi Hli'. destruct (decide (i = id)) as [-> | Hne].
    + congruence.
    + apply (Hn' i); [lia | assumption].
Qed.

Lemma has_chain_before_mono (lines : list line) id id' :
  id <= id' -> has_chain_before lines id -> has_chain_before lines id'.
Proof.
  intros Hle (j & lv & Hj & Hl & Hc). exists j, lv.
  repeat split; [lia | assumption | assumption].
Qed.

Lemma chain_bearing_index (lv : line) :
  chain_bearing lv = true -> index lv 21 = Ok (nth 21 lv blank).
Proof.
  unfold chain_bearing, index. intros H.
  apply andb_true_iff in H as [H _]. apply Nat.ltb_lt in H.
  destruct (lookup_lt_is_Some_2 lv 21) as [c Hc]; [lia|].
  rewrite Hc, (nth_lookup_Some _ _ _ _ Hc). reflexivity.
Qed.

(** The loop of the pass, from any point on: when every status column can
    be read and every marked line but the first has a chain-bearing line
    before it, the loop returns, the lines already visited keep what was
    written for them, and every other line gets what is expected. *)
Lemma fix_loop_spec (lines : list line) :
  chains_found lines ->
  forall rest pre id l out,
  lines = pre ++ rest ->
  id = length pre ->
  length out = length lines ->
  (forall k, id <= k -> out !! k = lines !! k) ->
  (l <> None -> has_chain_before lines id) ->
  Forall (fun x => status_ok x = true) rest ->
  exists out',
    fix_loop lines rest id l out = Ok out' /\
    length out' = length lines /\
    (forall k, k < id -> out' !! k = out !! k) /\
    (forall k cur, id <= k -> lines !! k = Some cur ->
       out' !! k = Some (expected lines k cur)).
Proof.
  intros Hfound rest.
  induction rest as [|cur rest IH]; intros pre id l out Hl Hid Hlen Hout Hinv Hok.
  - exists out. simpl. split4; [reflexivity | assumption | reflexivity |].
    intros k cur Hk Hcur. apply lookup_lt_Some in Hcur.
      rewrite Hl, length_app in Hcur. simpl in Hcur. lia.
  - apply Forall_cons in Hok as [Hcur Hrest].
    assert (lines !! id = Some cur) as Hat.
    { rewrite Hl, Hid. rewrite lookup_app_r by lia.
      rewrite Nat.sub_diag. reflexivity. }
    assert (lines = (pre ++ [cur]) ++ rest) as Hl'
      by (rewrite <- app_assoc; exact Hl).
    assert (S id = length (pre ++ [cur])) as Hid'
      by (rewrite length_app; simpl; lia).
    simpl. rewrite (is_new_hydrogen_marked _ Hcur). simpl.
    destruct (marked cur && (0 <? id)) eqn:Ecase.
    + apply andb_true_iff in Ecase as [Em Epos]. apply Nat.ltb_lt in Epos.
      destruct (has_chain_nearest lines id (Hfound id cur Epos Hat Em))
        as (j & lv & Hnear).
      rewrite (scan_back_nearest _ _ _ _ l Hnear).
      pose proof (scan_back_nearest _ _ _ _ None Hnear) as Hscan.
      assert (has_chain_before lines (S id)) as Hnext.
      { destruct Hnear as (Hj & Hlv & Hc & _). exists j, lv.
        repeat split; [lia | assumption | assumption]. }
      assert (expected lines id cur =
              if same_residue cur lv then repair cur (nth 21 lv blank) else cur)
        as Hexp.
      { unfold expected. rewrite Em, Hscan.
        assert ((0 <? id) = true) as -> by (apply Nat.ltb_lt; lia).
        reflexivity. }
      destruct (same_residue cur lv) eqn:Esame.
      * destruct Hnear as (Hj & Hlv & Hc & _).
        rewrite (chain_bearing_index _ Hc). simpl.
        assert (nth id out [] = cur) as Hnth.
        { apply nth_lookup_Some. rewrite Hout by lia. exact Hat. }
        rewrite Hnth.
        destruct (IH (pre ++ [cur]) (S id) (Some lv)
                     (<[id := repair cur (nth 21 lv blank)]> out))
          as (out' & Hrun & Hlen' & Hpre & Hpost);
          [assumption | assumption | rewrite length_insert; assumption | |
           intros _; assumption | assumption |].
        { intros k Hk. rewrite list_lookup_insert_ne by lia. apply Hout. lia. }
        exists out'. split4; [assumption | assumption | |].
        -- intros k Hk. rewrite Hpre by lia.
           apply list_lookup_insert_ne. lia.
        -- intros k c Hk Hc'. destruct (decide (k = id)) as [-> | Hne].
           ++ rewrite Hpre by lia.
              rewrite list_lookup_insert_eq
                by (rewrite Hlen; apply lookup_lt_Some in Hat; exact Hat).
              assert (c = cur) as -> by congruence.
              rewrite Hexp. reflexivity.
           ++ apply Hpost; [lia | assumption].
      * destruct (IH (pre ++ [cur]) (S id) (Some lv) out)
          as (out' & Hrun & Hlen' & Hpre & Hpost);
          [assumption | assumption | assumption | |
           intros _; assumption | assumption |].
        { intros k Hk. apply Hout. lia. }
        exists out'. split4; [assumption | assumption | |].
        -- intros k Hk. apply Hpre. lia.
        -- intros k c Hk Hc'. destruct (decide (k = id)) as [-> | Hne].
           ++ rewrite Hpre by lia. rewrite Hout by lia.
              assert (c = cur) as -> by congruence.
              rewrite Hexp. exact Hat.
           ++ apply Hpost; [lia | assumption].
    + destruct (IH (pre ++ [cur]) (S id) l out)
        as (out' & Hrun & Hlen' & Hpre & Hpost);
        [assumption | assumption | assumption | | | assumption |].
      { intros k Hk. apply Hout. lia. }
      { intros Hne. eapply has_chain_before_mono; [|apply Hinv; exact Hne]. lia. }
      exists out'. split4; [assumption | assumption | |].
      * intros k Hk. apply Hpre. lia.
      * intros k c Hk Hc'. destruct (decide (k = id)) as [-> | Hne].
        -- rewrite Hpre by lia. rewrite Hout by lia.
           assert (c = cur) as -> by congruence.
           unfold expected. rewrite Ecase. exact Hat.
        -- apply Hpost; [lia | assumption].
Qed.

End RepairFacts.

Module RepairClaims.
Import Text TextSpec TextFacts RepairFacts Fixtures.

(** The shape of a repaired line: the chain column is replaced and the
    last two characters give way to the placeholder. *)
Lemma repair_shape (a b : line) (x y z c : ascii) :
  length a = 21 ->
  repair (a ++ x :: b ++ [y; z]) c = a ++ c :: b ++ placeholder.
Proof.
  intros Ha. unfold repair, slice, slice_to_last2.
  change (drop 0 (a ++ x :: b ++ [y; z])) with (a ++ x :: b ++ [y; z]).
  assert (take (21 - 0) (a ++ x :: b ++ [y; z]) = a) as ->.
  { apply take_app_length'. lia. }
  assert (take (length (a ++ x :: b ++ [y; z]) - 2) (a ++ x :: b ++ [y; z])
          = a ++ x :: b) as ->.
  { replace (a ++ x :: b ++ [y; z]) with ((a ++ x :: b) ++ [y; z])
      by (rewrite <- app_assoc; reflexivity).
    apply take_app_length'. rewrite (length_app (a ++ x :: b)). simpl. lia. }
  assert (drop 22 (a ++ x :: b) = b) as ->.
  { replace (a ++ x :: b) with ((a ++ [x]) ++ b)
      by (rewrite <- app_assoc; reflexivity).
    apply drop_app_length'. rewrite length_app. simpl. lia. }
  reflexivity.
Qed.

Lemma same_residue_true (l1 l2 : line) :
  same_residue l1 l2 = true <->
  slice l1 17 21 = slice l2 17 21 /\ slice l1 23 27 = slice l2 23 27.
Proof.
  unfold same_residue. rewrite andb_true_iff, !bool_decide_eq_true. reflexivity.
Qed.

Lemma marked_status_ok (l : line) : marked l = true -> status_ok l = true.
Proof.
  unfold marked, status_ok. destruct (l !! 56) as [c|]; [|discriminate].
  intros H. apply andb_true_iff in H as [-> _]. apply orb_true_r.
Qed.

(** A marked line other than the first, with no chain-bearing line before
    it, stops the pass: the variable [l] is read before any assignment. *)
Lemma fix_loop_unbound (lines : list line) k cur :
  0 < k -> lines !! k = Some cur -> marked cur = true ->
  no_chain_before lines k ->
  (forall i li, i < k -> lines !! i = Some li -> status_ok li = true) ->
  forall rest pre id out,
  lines = pre ++ rest -> id = length pre -> id <= k ->
  fix_loop lines rest id None out = Raise UnboundLocalError.
Proof.
  intros Hk Hcur Hm Hno Hok rest.
  induction rest as [|c rest IH]; intros pre id out Hl Hid Hle.
  - apply lookup_lt_Some in Hcur. rewrite Hl, app_nil_r in Hcur. lia.
  - assert (lines !! id = Some c) as Hat.
    { rewrite Hl, Hid. rewrite lookup_app_r by lia.
      rewrite Nat.sub_diag. reflexivity. }
    assert (status_ok c = true) as Hc.
    { destruct (decide (id = k)) as [-> | Hne].
      - apply marked_status_ok. congruence.
      - apply (Hok id); [lia | assumption]. }
    assert (scan_back lines id None = None) as Hscan.
    { apply scan_back_none. intros i li Hi. apply Hno. lia. }
    simpl. rewrite (is_new_hydrogen_marked _ Hc). simpl.
    destruct (marked c && (0 <? id)) eqn:Ecase.
    + rewrite Hscan. reflexivity.
    + destruct (decide (id = k)) as [-> | Hne].
      * assert (c = cur) as -> by congruence.
        rewrite Hm in Ecase. simpl in Ecase.
        apply Nat.ltb_ge in Ecase. lia.
      * apply (IH (pre ++ [c])).
        -- rewrite <- app_assoc. exact Hl.
        -- rewrite length_app. simpl. lia.
        -- lia.
Qed.

(** C6 (code bug): the failing input.  A marked line that is not the first
    line and has only lines without a chain before it does not leave the
    pass "unrepaired and without error": the scan binds nothing, and
    reading the variable [l] raises [UnboundLocalError]. *)
Theorem C6_no_chain_before_raises :
  is_new_hydrogen hydrogen_same = Ok true /\
  chain_bearing short_line = false /\
  fix_haad_chains [short_line; hydrogen_same] = Raise UnboundLocalError.
Proof.
  split; [reflexivity | split; [reflexivity|]].
  unfold fix_haad_chains.
  apply (fix_loop_unbound [short_line; hydrogen_same] 1 hydrogen_same)
    with (pre := []); try reflexivity; try lia.
  - intros i li Hi Hli. destruct i as [|i]; [|lia].
    simpl in Hli. inversion Hli. reflexivity.
  - intros i li Hi Hli. destruct i as [|i]; [|lia].
    simpl in Hli. inversion Hli. reflexivity.
Qed.

(** C7: in a pass that meets no unreadable status column and no marked line
    without a chain-bearing line before it, a marked line whose nearest
    chain-bearing predecessor has the same residue name (columns 17-20) and
    residue number (columns 23-26) is written back with that line's chain
    character in column 21 and with the placeholder in place of its last
    two characters; when the name or the number differs, the line is
    written back unchanged. *)
Theorem C7_chain_repair (lines : list line) (k j : nat) (cur lv a b : line)
    (x y z : ascii) :
  Forall (fun l => status_ok l = true) lines ->
  chains_found lines ->
  lines !! k = Some cur ->
  marked cur = true ->
  nearest_chain lines k j lv ->
  cur = a ++ x :: b ++ [y; z] ->
  length a = 21 ->
  exists out ch,
    fix_haad_chains lines = Ok out /\
    length out = length lines /\
    lv !! 21 = Some ch /\ ch <> blank /\
    (slice cur 17 21 = slice lv 17 21 /\ slice cur 23 27 = slice lv 23 27 ->
       out !! k = Some (a ++ ch :: b ++ placeholder)) /\
    (slice cur 17 21 <> slice lv 17 21 \/ slice cur 23 27 <> slice lv 23 27 ->
       out !! k = Some cur).
Proof.
  intros Hok Hfound Hcur Hm Hnear Hshape Ha.
  destruct (fix_loop_spec lines Hfound lines [] 0 None lines)
    as (out & Hrun & Hlen & _ & Hpost);
    [reflexivity | reflexivity | reflexivity | reflexivity |
     intros H; congruence | assumption |].
  pose proof Hnear as (Hj & Hlv & Hc & _).
  pose proof (chain_bearing_index _ Hc) as Hidx.
  unfold index in Hidx. destruct (lv !! 21) as [ch|] eqn:Ech; [|discriminate].
  inversion Hidx as [Hch].
  exists out, ch. split; [exact Hrun|]. split; [exact Hlen|].
  split; [congruence|].
  assert (out !! k = Some (if same_residue cur lv then repair cur ch else cur))
    as Hk.
  { rewrite (Hpost k cur) by (lia || assumption). unfold expected.
    rewrite Hm, (scan_back_nearest _ _ _ _ None Hnear).
    assert ((0 <? k) = true) as -> by (apply Nat.ltb_lt; lia).
    simpl. rewrite <- Hch. reflexivity. }
  split; [|split].
  - unfold chain_bearing in Hc. apply andb_true_iff in Hc as [_ Hc].
    rewrite <- Hch in Hc. intros ->.
    rewrite Ascii.eqb_refl in Hc. discriminate.
  - intros Hsame. apply same_residue_true in Hsame.
    rewrite Hk, Hsame, Hshape. rewrite (repair_shape _ _ _ _ _ _ Ha).
    reflexivity.
  - intros Hdiff. rewrite Hk.
    destruct (same_residue cur lv) eqn:E; [|reflexivity].
    apply same_residue_true in E. destruct E, Hdiff; contradiction.
Qed.

End RepairClaims.

Module RepairExamples.
Import Text TextSpec TextFacts RepairFacts RepairClaims Fixtures.

Lemma demo_chains_found : chains_found demo_lines.
Proof.
  intros k cur Hk Hcur Hm. exists 0, heavy_A.
  split; [lia | split; reflexivity].
Defined.

Lemma demo_nearest : nearest_chain demo_lines 1 0 heavy_A.
Proof.
  split; [lia | split; [reflexivity | split; [reflexivity|]]].
  intros i li Hi. lia.
Defined.

Lemma demo_status_ok : Forall (fun l => status_ok l = true) demo_lines.
Proof. repeat constructor. Defined.

(** The repair of the hydrogen line that follows its own heavy atom. *)
Lemma C7_chain_repair_witness :
  Forall (fun l => status_ok l = true) demo_lines /\
  chains_found demo_lines /\
  demo_lines !! 1 = Some hydrogen_same /\
  marked hydrogen_same = true /\
  nearest_chain demo_lines 1 0 heavy_A /\
  exists out ch,
    fix_haad_chains demo_lines = Ok out /\
    length out = length demo_lines /\
    heavy_A !! 21 = Some ch /\ ch <> blank /\
    (slice hydrogen_same 17 21 = slice heavy_A 17 21 /\
     slice hydrogen_same 23 27 = slice heavy_A 23 27 ->
       out !! 1 = Some (take 21 hydrogen_same ++ ch
                          :: drop 22 (take 58 hydrogen_same) ++ placeholder)) /\
    (slice hydrogen_same 17 21 <> slice heavy_A 17 21 \/
     slice hydrogen_same 23 27 <> slice heavy_A 23 27 ->
       out !! 1 = Some hydrogen_same).
Proof.
  split; [exact demo_status_ok|].
  split; [exact demo_chains_found|].
  split; [reflexivity|]. split; [reflexivity|].
  split; [exact demo_nearest|].
  exact (C7_chain_repair demo_lines 1 0 hydrogen_same heavy_A
           (take 21 hydrogen_same) (drop 22 (take 58 hydrogen_same))
           blank blank newline
           demo_status_ok demo_chains_found eq_refl eq_refl demo_nearest
           eq_refl eq_refl).
Defined.

(** The pass on the three lines: the first hydrogen gets chain [A], the
    second, of another residue, is left as it was. *)
Example fix_demo_lines :
  fix_haad_chains demo_lines =
  Ok [heavy_A;
      blanks 17 ++ list_ascii_of_string "ALA A    1" ++ blanks 29
        ++ list_ascii_of_string "1 1.00 1.00            H " ++ [newline];
      hydrogen_other].
Proof. vm_compute. reflexivity. Qed.

(** The first line of the file is never repaired, whatever follows. *)
Example fix_first_line :
  fix_haad_chains [hydrogen_same; heavy_A] = Ok [hydrogen_same; heavy_A].
Proof. vm_compute. reflexivity. Qed.

End RepairExamples.

Module IdentifyClaims.
Import Text TextSpec TextFacts Fixtures.

(** C5 (as amended): on lines whose status column (column 56) is absent,
    blank or a digit, the identification pass returns, in increasing
    order, exactly the zero-based indices of the lines that have a column
    56 holding a digit of value less than 2: shorter lines, lines with a
    blank status and lines with a digit of value 2 or more are left out
    without error.  As soon as one line has a status column that is
    neither blank nor a digit, the pass raises [ValueError] and returns no
    list. *)
Theorem C5_new_hydrogens_exact (lines : list line) :
  (Forall (fun l => status_ok l = true) lines ->
   exists ids,
     new_hydrogens lines = Ok ids /\
     StronglySorted lt ids /\
     forall i, i ∈ ids <->
       exists l c, lines !! i = Some l /\ 57 <= length l /\ l !! 56 = Some c /\
         c <> blank /\ is_digit c = true /\ nat_of_ascii c - 48 < 2) /\
  ((exists l c, l ∈ lines /\ l !! 56 = Some c /\ c <> blank /\
                is_digit c = false) ->
   new_hydrogens lines = Raise ValueError).
Proof.
  split.
  2:{ intros (l & c & Hl & Hc & Hb & Hd). apply new_hydrogens_loop_raises.
      apply Exists_exists. exists l. split; [exact Hl|].
      unfold status_ok. rewrite Hc, Hd.
      destruct (Ascii.eqb c blank) eqn:E; [|reflexivity].
      apply Ascii.eqb_eq in E. contradiction. }
  intros Hok. exists (marked_from lines 0).
  split; [|split].
  - unfold new_hydrogens. rewrite (new_hydrogens_loop_marked _ _ _ Hok).
    reflexivity.
  - apply marked_from_sorted.
  - intros i. rewrite marked_from_elem, Nat.sub_0_r. split.
    + intros (l & _ & Hl & Hm). unfold marked in Hm.
      destruct (l !! 56) as [c|] eqn:Ec; [|discriminate].
      apply andb_true_iff in Hm as [Hd Hv]. apply Nat.ltb_lt in Hv.
      exists l, c. split; [assumption|].
      split; [apply lookup_lt_Some in Ec; lia|].
      split; [exact Ec|]. split; [|split; assumption].
      intros ->. rewrite blank_not_digit in Hd. discriminate.
    + intros (l & c & Hl & _ & Hc & _ & Hd & Hv). exists l.
      split; [lia|]. split; [assumption|].
      unfold marked. rewrite Hc, Hd. apply Nat.ltb_lt. exact Hv.
Qed.

Lemma five_statuses_ok : Forall (fun l => status_ok l = true) five_statuses.
Proof. repeat constructor. Defined.

Lemma C5_new_hydrogens_exact_witness :
  Forall (fun l => status_ok l = true) five_statuses /\
  exists ids,
    new_hydrogens five_statuses = Ok ids /\
    StronglySorted lt ids /\
    forall i, i ∈ ids <->
      exists l c, five_statuses !! i = Some l /\ 57 <= length l /\
        l !! 56 = Some c /\
        c <> blank /\ is_digit c = true /\ nat_of_ascii c - 48 < 2.
Proof.
  split; [exact five_statuses_ok|].
  exact (proj1 (C5_new_hydrogens_exact five_statuses) five_statuses_ok).
Defined.

(** The statuses "1", "0", none, "2", "9" and blank: the first two lines
    are identified. *)
Example new_hydrogens_five_statuses : new_hydrogens five_statuses = Ok [0; 1].
Proof. reflexivity. Qed.

(** C5, as stated, fails: a line whose column 56 holds a letter is not
    excluded silently; converting the letter raises [ValueError] and the
    pass returns no list at all. *)
Lemma C5_counterexample :
  length status_letter = 60 /\
  status_letter !! 56 = Some "A"%char /\
  is_digit "A" = false /\
  new_hydrogens [heavy_A; status_letter] = Raise ValueError.
Proof. repeat split. Qed.

End IdentifyClaims.

(** ** Position keys *)

Module KeyFacts.
Import Key.
Local Open Scope Z_scope.











(** Rounding to four decimals, ties to even. *)
Example round4_examples :
  (round4 (1 # 32) == 312 # 10000)%Q /\
  (round4 (3 # 32) == 938 # 10000)%Q /\
  (round4 (- (123456 # 1000000)) == - (1235 # 10000))%Q /\
  coord_key (1 # 32) = 1 /\ coord_key (- (1 # 32)) = -1.
Proof. repeat split. Qed.

End KeyFacts.

(** ** The merge *)

Module HeapFacts.

Lemma Qltb_true (a b : Q) : Qltb a b = true <-> (a < b)%Q.
Proof.
  unfold Qltb. rewrite negb_true_iff. split.
  - intros H. apply Qnot_le_lt. intros Hle.
    apply Qle_bool_iff in Hle. congruence.
  - intros H. destruct (Qle_bool b a) eqn:E; [|reflexivity].
    apply Qle_bool_iff in E. exfalso. exact (Qlt_not_le _ _ H E).
Qed.

Lemma Qltb_false (a b : Q) : Qltb a b = false <-> (b <= a)%Q.
Proof.
  unfold Qltb. rewrite negb_false_iff. apply Qle_bool_iff.
Qed.

(** Reading a table after an update in place. *)
Lemma nth_alter {A} (f : A -> A) (l : list A) (i j : nat) (d : A) :
  nth j (alter f i l) d =
  if decide (i = j /\ j < length l) then f (nth j l d) else nth j l d.
Proof.
  rewrite !nth_lookup. destruct (decide (i = j)) as [-> | Hne].
  - rewrite list_lookup_alter_eq. destruct (l !! j) as [x|] eqn:E; simpl.
    + apply lookup_lt_Some in E.
      destruct (decide (j = j /\ j < length l)) as [_ | Hn]; [reflexivity|].
      exfalso. apply Hn. split; [reflexivity | exact E].
    + apply lookup_ge_None in E.
      destruct (decide (j = j /\ j < length l)) as [[_ Hlt] | _];
        [lia | reflexivity].
  - rewrite list_lookup_alter_ne by exact Hne.
    destruct (decide (i = j /\ j < length l)) as [[He _] | _];
      [contradiction | reflexivity].
Qed.

Lemma get_atom_set_symbol (h : Heap) (a x : aref) (s : string) :
  get_atom (set_symbol h a s) x =
  if decide (a = x /\ x < length (h_atoms h)) then with_symbol s (get_atom h x)
  else get_atom h x.
Proof. unfold get_atom, set_symbol. simpl. apply nth_alter. Qed.

Lemma get_atom_set_symbol_ne (h : Heap) (a x : aref) (s : string) :
  a <> x -> get_atom (set_symbol h a s) x = get_atom h x.
Proof.
  intros Hne. rewrite get_atom_set_symbol.
  case_decide as Hd; [destruct Hd; contradiction | reflexivity].
Qed.

(** Setting the symbol of an atom changes that field of that atom only. *)
Lemma set_symbol_fields (h : Heap) (a x : aref) (s : string) :
  let u := get_atom (set_symbol h a s) x in
  let v := get_atom h x in
  serial u = serial v /\ position u = position v /\ residue u = residue v /\
  display_mode u = display_mode v /\ is_het u = is_het v /\
  selected u = selected v /\ bfactor u = bfactor v /\ occupancy u = occupancy v.
Proof.
  simpl. rewrite get_atom_set_symbol.
  case_decide; repeat split.
Qed.

Lemma get_residue_set_symbol (h : Heap) (a : aref) (s : string) (r : rref) :
  get_residue (set_symbol h a s) r = get_residue h r.
Proof. reflexivity. Qed.

(** The search does not look at the symbol of the atom it searches for. *)
Lemma closest_loop_set_symbol (h : Heap) (a : aref) (s : string) cs :
  forall r m,
  closest_loop (set_symbol h a s) a cs r m = closest_loop h a cs r m.
Proof.
  induction cs as [|c cs IH]; intros r m; simpl; [reflexivity|].
  destruct (set_symbol_fields h a a s) as (_ & Hp & _). simpl in Hp.
  rewrite Hp. destruct (c =? a) eqn:E; simpl.
  - apply IH.
  - apply Nat.eqb_neq in E.
    rewrite (get_atom_set_symbol_ne h a c s) by congruence.
    rewrite !IH. reflexivity.
Qed.

Lemma get_closest_set_symbol (h : Heap) (a : aref) (s : string) :
  get_closest_heavy_atom_in_residue (set_symbol h a s) a =
  get_closest_heavy_atom_in_residue h a.
Proof.
  unfold get_closest_heavy_atom_in_residue.
  rewrite closest_loop_set_symbol.
  destruct (set_symbol_fields h a a s) as (_ & _ & Hr & _). simpl in Hr.
  rewrite Hr. reflexivity.
Qed.

End HeapFacts.

Module SearchFacts.
Import HeapFacts MergeSpec.

Lemma candidate_test (h : Heap) (atom c : aref) :
  negb (c =? atom) && negb (String.eqb (symbol (get_atom h c)) "H") = true
  <-> candidate h atom c.
Proof.
  unfold candidate.
  rewrite andb_true_iff, !negb_true_iff, Nat.eqb_neq, String.eqb_neq.
  reflexivity.
Qed.

(** What the loop of the search returns: a distance no greater than the
    one it started with nor than that of any candidate it visited; it is
    the distance of the atom returned, unless nothing was found closer. *)
Lemma closest_loop_spec (h : Heap) (atom : aref) cs : forall r m r' m',
  closest_loop h atom cs r m = (r', m') ->
  (m' <= m)%Q /\
  (forall c, c ∈ cs -> candidate h atom c -> (m' <= dist_to h atom c)%Q) /\
  ((r' = r /\ m' = m) \/
   (exists c, c ∈ cs /\ candidate h atom c /\ r' = Some c /\
              m' = dist_to h atom c)).
Proof.
  induction cs as [|c cs IH]; intros r m r' m' Hrun; simpl in Hrun.
  - inversion Hrun; subst. split; [apply Qle_refl|]. split.
    + intros c Hc. inversion Hc.
    + left. split; reflexivity.
  - destruct (negb (c =? atom) && negb (String.eqb (symbol (get_atom h c)) "H"))
      eqn:Ecand.
    + apply candidate_test in Ecand.
      fold (dist_to h atom c) in Hrun.
      destruct (Qltb (dist_to h atom c) m) eqn:Elt.
      * apply Qltb_true in Elt.
        destruct (IH _ _ _ _ Hrun) as (Hle & Hall & Hres).
        split; [apply Qlt_le_weak; eapply Qle_lt_trans; eassumption|].
        split.
        -- intros c' Hc' Hcand. apply elem_of_cons in Hc' as [-> | Hc'];
             [exact Hle | apply Hall; assumption].
        -- right. destruct Hres as [[-> ->] | (c' & Hc' & Hcand & -> & ->)].
           ++ exists c. split; [left | split; [assumption | split; reflexivity]].
           ++ exists c'. split; [right; assumption | split; [assumption | split; reflexivity]].
      * apply Qltb_false in Elt.
        destruct (IH _ _ _ _ Hrun) as (Hle & Hall & Hres).
        split; [exact Hle|]. split.
        -- intros c' Hc' Hcand. apply elem_of_cons in Hc' as [-> | Hc'];
             [eapply Qle_trans; eassumption | apply Hall; assumption].
        -- destruct Hres as [Hsame | (c' & Hc' & Hcand & -> & ->)];
             [left; exact Hsame | right].
           exists c'. split; [right; assumption | split; [assumption | split; reflexivity]].
    + assert (~ candidate h atom c) as Hnc.
      { intros Hc. apply candidate_test in Hc. congruence. }
      destruct (IH _ _ _ _ Hrun) as (Hle & Hall & Hres).
      split; [exact Hle|]. split.
      * intros c' Hc' Hcand. apply elem_of_cons in Hc' as [-> | Hc'];
          [contradiction | apply Hall; assumption].
      * destruct Hres as [Hsame | (c' & Hc' & Hcand & -> & ->)];
          [left; exact Hsame | right].
        exists c'. split; [right; assumption | split; [assumption | split; reflexivity]].
Qed.

(** The partner found is a candidate of the residue, at the distance
    returned, and no candidate of the residue is closer. *)
Lemma get_closest_some (h : Heap) (atom b : aref) (d : Q) :
  get_closest_heavy_atom_in_residue h atom = (Some b, d) ->
  b ∈ residue_atoms_of h atom /\ candidate h atom b /\
  d = dist_to h atom b /\
  forall c, c ∈ residue_atoms_of h atom -> candidate h atom c ->
    (d <= dist_to h atom c)%Q.
Proof.
  unfold get_closest_heavy_atom_in_residue. intros Hrun.
  destruct (closest_loop_spec _ _ _ _ _ _ _ Hrun) as (_ & Hall & Hres).
  destruct Hres as [[Hn _] | (c & Hc & Hcand & Hb & Hd)]; [discriminate|].
  inversion Hb; subst c. repeat split; try assumption; apply Hcand.
Qed.

(** Nothing is found exactly when no candidate of the residue is closer
    than the starting distance. *)
Lemma get_closest_none (h : Heap) (atom : aref) (d : Q) :
  get_closest_heavy_atom_in_residue h atom = (None, d) ->
  d = minD0 /\
  forall c, c ∈ residue_atoms_of h atom -> candidate h atom c ->
    (minD0 <= dist_to h atom c)%Q.
Proof.
  unfold get_closest_heavy_atom_in_residue. intros Hrun.
  destruct (closest_loop_spec _ _ _ _ _ _ _ Hrun) as (_ & Hall & Hres).
  destruct Hres as [[_ Hd] | (c & _ & _ & Hb & _)]; [|discriminate].
  subst d. split; [reflexivity | exact Hall].
Qed.

Lemma closest_loop_no_candidate (h : Heap) (atom : aref) cs : forall r m,
  (forall c, c ∈ cs -> ~ candidate h atom c) ->
  closest_loop h atom cs r m = (r, m).
Proof.
  induction cs as [|c cs IH]; intros r m Hnone; simpl; [reflexivity|].
  destruct (negb (c =? atom) && negb (String.eqb (symbol (get_atom h c)) "H"))
    eqn:Ecand.
  - apply candidate_test in Ecand. exfalso.
    apply (Hnone c); [left | assumption].
  - apply IH. intros c' Hc'. apply Hnone. right. exact Hc'.
Qed.

(** A residue without any candidate gives no partner. *)
Lemma get_closest_no_candidate (h : Heap) (atom : aref) :
  (forall c, c ∈ residue_atoms_of h atom -> ~ candidate h atom c) ->
  get_closest_heavy_atom_in_residue h atom = (None, minD0).
Proof. intros H. apply closest_loop_no_candidate. exact H. Qed.

End SearchFacts.

Module MergeFacts.
Import HeapFacts MergeSpec SearchFacts.

Lemma key_set_symbol (h : Heap) (a x : aref) (s : string) :
  get_position_key (get_atom (set_symbol h a s) x) =
  get_position_key (get_atom h x).
Proof.
  destruct (set_symbol_fields h a x s) as (_ & Hp & _). simpl in Hp.
  unfold get_position_key. rewrite Hp. reflexivity.
Qed.

(** *** The four ways through the body of the loop *)

Lemma merge_one_no_partner abp (a : aref) (h : Heap) (d : Q) :
  get_closest_heavy_atom_in_residue h a = (None, d) ->
  merge_one abp a h = set_symbol h a "H".
Proof.
  intros Hc. unfold merge_one. rewrite get_closest_set_symbol, Hc. reflexivity.
Qed.

Lemma merge_one_too_far abp (a b : aref) (h : Heap) (d : Q) :
  get_closest_heavy_atom_in_residue h a = (Some b, d) ->
  (gate < d)%Q ->
  merge_one abp a h = set_symbol h a "H".
Proof.
  intros Hc Hd. unfold merge_one. rewrite get_closest_set_symbol, Hc.
  apply Qltb_true in Hd. rewrite Hd. reflexivity.
Qed.

Lemma merge_one_unknown (abp : gmap PositionKey aref) (a b : aref)
    (h : Heap) (d : Q) :
  get_closest_heavy_atom_in_residue h a = (Some b, d) ->
  (d <= gate)%Q ->
  abp !! get_position_key (get_atom h b) = None ->
  let h1 := set_symbol h a "H" in
  merge_one abp a h =
  warn (snd (add_bond h1 a b))
       (mkWarning (serial (get_atom h1 a)) (symbol (get_atom h1 b))
                  (position (get_atom h1 b))).
Proof.
  intros Hc Hd Hk. unfold merge_one. rewrite get_closest_set_symbol, Hc.
  apply Qltb_false in Hd. rewrite Hd. simpl.
  change (get_atom _ b) with (get_atom (set_symbol h a "H") b) at 1.
  rewrite key_set_symbol, Hk. reflexivity.
Qed.

Lemma merge_one_accepted (abp : gmap PositionKey aref) (a b src : aref)
    (h : Heap) (d : Q) :
  get_closest_heavy_atom_in_residue h a = (Some b, d) ->
  (d <= gate)%Q ->
  abp !! get_position_key (get_atom h b) = Some src ->
  let h1 := set_symbol h a "H" in
  let new_atom := length (h_atoms h) in
  merge_one abp a h =
  mkHeap (h_atoms h1 ++ [new_hydrogen (get_atom h1 a) (get_atom h1 src)])
         (alter (fun r => residue_add_bond (mkBond CovalentSingle src new_atom)
                            (residue_add_atom new_atom r))
                (residue (get_atom h1 src))
                (alter (residue_add_bond (mkBond CovalentSingle a b))
                       (residue (get_atom h1 b)) (h_residues h)))
         (h_log h).
Proof.
  intros Hc Hd Hk. unfold merge_one. rewrite get_closest_set_symbol, Hc.
  apply Qltb_false in Hd. rewrite Hd. simpl.
  change (get_atom _ b) with (get_atom (set_symbol h a "H") b) at 1.
  rewrite key_set_symbol, Hk. simpl.
  rewrite length_alter. reflexivity.
Qed.

End MergeFacts.

Module FrameFacts.
Import HeapFacts MergeSpec SearchFacts MergeFacts.

Lemma grows_refl (n : nat) (rs : list Residue) : grows n rs rs.
Proof.
  split; [reflexivity|]. intros r. exists [], [].
  rewrite !app_nil_r. repeat split. constructor.
Qed.

Lemma grows_trans (n n' : nat) (rs rs' rs'' : list Residue) :
  n <= n' -> grows n rs rs' -> grows n' rs' rs'' -> grows n rs rs''.
Proof.
  intros Hn [Hlen H] [Hlen' H']. split; [congruence|].
  intros r. destruct (H r) as (na & nb & Ha & Hb & Hf).
  destruct (H' r) as (na' & nb' & Ha' & Hb' & Hf').
  exists (na ++ na'), (nb ++ nb').
  rewrite Ha', Hb', Ha, Hb, <- !app_assoc. repeat split.
  apply Forall_app. split; [exact Hf|].
  eapply Forall_impl; [exact Hf'|]. simpl. intros; lia.
Qed.

Lemma grows_add_bond (n : nat) (b : Bond) (r : rref) (rs : list Residue) :
  grows n rs (alter (residue_add_bond b) r rs).
Proof.
  split; [apply length_alter|]. intros r'. rewrite nth_alter.
  case_decide.
  - exists [], [b]. simpl. rewrite app_nil_r. repeat split. constructor.
  - exists [], []. rewrite !app_nil_r. repeat split. constructor.
Qed.

Lemma grows_add_atom_bond (n x : nat) (b : Bond) (r : rref)
    (rs : list Residue) :
  n <= x ->
  grows n rs (alter (fun res => residue_add_bond b (residue_add_atom x res)) r rs).
Proof.
  intros Hx. split; [apply length_alter|]. intros r'. rewrite nth_alter.
  case_decide.
  - exists [x], [b]. simpl. repeat split. constructor; [exact Hx | constructor].
  - exists [], []. rewrite !app_nil_r. repeat split. constructor.
Qed.

Lemma merge_one_turn abp (a : aref) (h : Heap) : turn a h (merge_one abp a h).
Proof.
  destruct (get_closest_heavy_atom_in_residue h a) as [[b|] d] eqn:Hc.
  - destruct (Qlt_le_dec gate d) as [Hd | Hd].
    + rewrite (merge_one_too_far abp a b h d Hc Hd). split.
      * exists []. simpl. rewrite app_nil_r. reflexivity.
      * apply grows_refl.
    + destruct (abp !! get_position_key (get_atom h b)) as [src|] eqn:Hk.
      * rewrite (merge_one_accepted abp a b src h d Hc Hd Hk). split.
        -- eexists. reflexivity.
        -- simpl. eapply grows_trans;
             [reflexivity | apply grows_add_bond |
              apply grows_add_atom_bond; reflexivity].
      * rewrite (merge_one_unknown abp a b h d Hc Hd Hk). split.
        -- exists []. simpl. rewrite app_nil_r. reflexivity.
        -- simpl. apply grows_add_bond.
  - rewrite (merge_one_no_partner abp a h d Hc). split.
    + exists []. simpl. rewrite app_nil_r. reflexivity.
    + apply grows_refl.
Qed.

Lemma turn_length (a : aref) (h h' : Heap) :
  turn a h h' -> length (h_atoms h) <= length (h_atoms h').
Proof.
  intros [[new Hat] _]. rewrite Hat, length_app, length_alter. lia.
Qed.

Lemma turn_other (a x : aref) (h h' : Heap) :
  turn a h h' -> x < length (h_atoms h) -> x <> a ->
  get_atom h' x = get_atom h x.
Proof.
  intros [[new Hat] _] Hx Hne. unfold get_atom. rewrite Hat.
  rewrite app_nth1 by (rewrite length_alter; exact Hx).
  rewrite nth_alter.
  case_decide as Hd; [destruct Hd; congruence | reflexivity].
Qed.

Lemma turn_self (a : aref) (h h' : Heap) :
  turn a h h' -> a < length (h_atoms h) ->
  get_atom h' a = with_symbol "H" (get_atom h a).
Proof.
  intros [[new Hat] _] Ha. unfold get_atom. rewrite Hat.
  rewrite app_nth1 by (rewrite length_alter; exact Ha).
  rewrite nth_alter.
  case_decide as Hd;
    [reflexivity | exfalso; apply Hd; split; [reflexivity | exact Ha]].
Qed.

Lemma turn_keeps_H (a x : aref) (h h' : Heap) :
  turn a h h' -> x < length (h_atoms h) ->
  symbol (get_atom h x) = "H"%string -> symbol (get_atom h' x) = "H"%string.
Proof.
  intros Ht Hx Hs. destruct (decide (x = a)) as [-> | Hne].
  - rewrite (turn_self _ _ _ Ht Hx). reflexivity.
  - rewrite (turn_other _ _ _ _ Ht Hx Hne). exact Hs.
Qed.

Lemma turn_residue_field (a x : aref) (h h' : Heap) :
  turn a h h' -> x < length (h_atoms h) ->
  residue (get_atom h' x) = residue (get_atom h x).
Proof.
  intros Ht Hx. destruct (decide (x = a)) as [-> | Hne].
  - rewrite (turn_self _ _ _ Ht Hx). reflexivity.
  - rewrite (turn_other _ _ _ _ Ht Hx Hne). reflexivity.
Qed.

(** *** The whole loop *)

Lemma merge_loop_app abp atoms (pre post : list nat) (h : Heap) :
  merge_loop abp atoms (pre ++ post) h =
  (h1 <~ merge_loop abp atoms pre h ;; merge_loop abp atoms post h1).
Proof.
  revert h. induction pre as [|id pre IH]; intros h; simpl; [reflexivity|].
  unfold merge_step. destruct (atoms !! id) as [a|]; simpl; [apply IH | reflexivity].
Qed.

(** The loop returns as soon as every index is one of [atoms]. *)
Lemma merge_loop_total abp (atoms : list aref) (ids : list nat) : forall h,
  Forall (fun id => id < length atoms) ids ->
  exists h', merge_loop abp atoms ids h = Ok h'.
Proof.
  induction ids as [|id ids IH]; intros h Hin; simpl.
  - exists h. reflexivity.
  - apply Forall_cons in Hin as [Hid Hrest].
    unfold merge_step.
    destruct (lookup_lt_is_Some_2 atoms id Hid) as [a Ha]. rewrite Ha. simpl.
    apply IH. exact Hrest.
Qed.

Lemma merge_loop_frame abp (atoms : list aref) (ids : list nat) : forall h h',
  merge_loop abp atoms ids h = Ok h' ->
  length (h_atoms h) <= length (h_atoms h') /\
  grows (length (h_atoms h)) (h_residues h) (h_residues h') /\
  (forall x, x < length (h_atoms h) -> x ∉ atoms ->
     get_atom h' x = get_atom h x) /\
  (forall x, x < length (h_atoms h) ->
     symbol (get_atom h x) = "H"%string -> symbol (get_atom h' x) = "H"%string) /\
  (forall x, x < length (h_atoms h) ->
     residue (get_atom h' x) = residue (get_atom h x)) /\
  (forall id x, id ∈ ids -> atoms !! id = Some x -> x < length (h_atoms h) ->
     symbol (get_atom h' x) = "H"%string).
Proof.
  induction ids as [|id ids IH]; intros h h' Hrun; simpl in Hrun.
  - inversion Hrun; subst h'.
    split; [lia|]. split; [apply grows_refl|].
    split; [reflexivity|]. split; [auto|]. split; [reflexivity|].
    intros id x Hid. inversion Hid.
  - unfold merge_step in Hrun.
    destruct (atoms !! id) as [a|] eqn:Ha; simpl in Hrun; [|discriminate].
    pose proof (merge_one_turn abp a h) as Ht.
    set (h1 := merge_one abp a h) in *.
    pose proof (turn_length _ _ _ Ht) as Hlen.
    destruct (IH _ _ Hrun) as (Hlen' & Hg & Hother & HH & Hres & Hids).
    split; [lia|].
    split; [eapply grows_trans; [exact Hlen | apply Ht | exact Hg]|].
    split; [|split; [|split]].
    + intros x Hx Hnot. rewrite Hother by (lia || assumption).
      apply (turn_other _ _ _ _ Ht Hx). intros ->.
      apply Hnot. apply list_elem_of_lookup. exists id. exact Ha.
    + intros x Hx Hs. apply HH; [lia|].
      apply (turn_keeps_H _ _ _ _ Ht Hx Hs).
    + intros x Hx. rewrite Hres by lia. apply (turn_residue_field _ _ _ _ Ht Hx).
    + intros id' x Hid' Hx Hlt. apply elem_of_cons in Hid' as [-> | Hid'].
      * assert (x = a) as -> by congruence.
        apply HH; [lia|]. rewrite (turn_self _ _ _ Ht Hlt). reflexivity.
      * apply (Hids id' x Hid' Hx). lia.
Qed.

(** The counts of a structure whose residues are untouched. *)
Lemma counts_unchanged (h h' : Heap) (c : Complex) :
  (forall r, r ∈ c -> get_residue h' r = get_residue h r) ->
  atom_count h' c = atom_count h c /\ bond_count h' c = bond_count h c.
Proof.
  intros H. unfold atom_count, bond_count, complex_atoms.
  assert (Forall (fun r => get_residue h' r = get_residue h r) c) as HF
    by (apply Forall_forall; exact H).
  clear H. induction HF as [|r c Hr HF IH]; simpl; [split; reflexivity|].
  rewrite !length_app, Hr. destruct IH as [-> ->]. split; reflexivity.
Qed.

End FrameFacts.

Module MergeClaims.
Import HeapFacts MergeSpec SearchFacts MergeFacts FrameFacts.

Lemma nth_app_last {A} (l : list A) (x d : A) (n : nat) :
  n = length l -> nth n (l ++ [x]) d = x.
Proof.
  intros ->. rewrite app_nth2 by lia. rewrite Nat.sub_diag. reflexivity.
Qed.

(** C1: when a partner is found within the distance of the gate and its
    position key is in the index, the hydrogen allocated by the merge has
    the selected flag, the is-heteroatom flag, the display mode, the
    b-factor and the occupancy of the source atom the index gives, and the
    serial and position of the deserialized hydrogen. *)
Theorem C1_metadata_propagation (abp : gmap PositionKey aref)
    (a b src : aref) (h : Heap) (d : Q) :
  get_closest_heavy_atom_in_residue h a = (Some b, d) ->
  (d <= gate)%Q ->
  abp !! get_position_key (get_atom h b) = Some src ->
  let h' := merge_one abp a h in
  let new_atom := get_atom h' (length (h_atoms h)) in
  length (h_atoms h') = S (length (h_atoms h)) /\
  selected new_atom = selected (get_atom h src) /\
  is_het new_atom = is_het (get_atom h src) /\
  display_mode new_atom = display_mode (get_atom h src) /\
  bfactor new_atom = bfactor (get_atom h src) /\
  occupancy new_atom = occupancy (get_atom h src) /\
  residue new_atom = residue (get_atom h src) /\
  serial new_atom = serial (get_atom h a) /\
  position new_atom = position (get_atom h a).
Proof.
  intros Hc Hd Hk. simpl.
  rewrite (merge_one_accepted abp a b src h d Hc Hd Hk).
  match goal with
  | |- context [get_atom ?H (length (h_atoms h))] =>
      assert (get_atom H (length (h_atoms h)) =
              new_hydrogen (get_atom (set_symbol h a "H") a)
                           (get_atom (set_symbol h a "H") src)) as Hnew
  end.
  { unfold get_atom at 1. simpl h_atoms. apply nth_app_last.
    rewrite length_alter. reflexivity. }
  rewrite Hnew. clear Hnew.
  split; [simpl; rewrite length_app, length_alter; simpl; lia|].
  destruct (set_symbol_fields h a src "H")
    as (_ & _ & Hres & Hdm & Hhet & Hsel & Hbf & Hocc).
  destruct (set_symbol_fields h a a "H") as (Hser & Hpos & _).
  simpl in *. repeat split; assumption.
Qed.

(** C2: a hydrogen whose nearest candidate in its residue is farther than
    the gate is dropped: only its symbol is set, and the atom and bond
    counts of every structure are what they were.  A hydrogen whose
    partner is within the gate (1.99 is) and has its position key in the
    index adds exactly one atom and one bond to the residue of the source
    atom, that residue being another one than the partner's. *)
Theorem C2_distance_gate (abp : gmap PositionKey aref) (a : aref) (h : Heap) :
  (forall b,
     b ∈ residue_atoms_of h a -> candidate h a b ->
     (forall c, c ∈ residue_atoms_of h a -> candidate h a c ->
        (dist_to h a b <= dist_to h a c)%Q) ->
     (gate < dist_to h a b)%Q ->
     merge_one abp a h = set_symbol h a "H" /\
     forall c : Complex,
       atom_count (merge_one abp a h) c = atom_count h c /\
       bond_count (merge_one abp a h) c = bond_count h c) /\
  (forall b d src,
     get_closest_heavy_atom_in_residue h a = (Some b, d) ->
     (d <= gate)%Q ->
     abp !! get_position_key (get_atom h b) = Some src ->
     residue (get_atom h src) < length (h_residues h) ->
     residue (get_atom h src) <> residue (get_atom h b) ->
     let h' := merge_one abp a h in
     let rs := residue (get_atom h src) in
     let new_atom := length (h_atoms h) in
     length (h_atoms h') = S (length (h_atoms h)) /\
     r_atoms (get_residue h' rs) = r_atoms (get_residue h rs) ++ [new_atom] /\
     r_bonds (get_residue h' rs) =
       r_bonds (get_residue h rs) ++ [mkBond CovalentSingle src new_atom]).
Proof.
  split.
  - intros b Hb Hcand Hnear Hfar.
    assert (merge_one abp a h = set_symbol h a "H") as Hdrop.
    { destruct (get_closest_heavy_atom_in_residue h a) as [[b'|] d'] eqn:Hc.
      - apply (merge_one_too_far abp a b' h d' Hc).
        destruct (get_closest_some _ _ _ _ Hc) as (Hb' & Hcand' & Hd' & _).
        rewrite Hd'.
        eapply Qlt_le_trans; [exact Hfar | apply Hnear; assumption].
      - apply (merge_one_no_partner abp a h d' Hc). }
    split; [exact Hdrop|]. intros c. rewrite Hdrop.
    apply counts_unchanged. reflexivity.
  - intros b d src Hc Hd Hk Hvalid Hsep. simpl.
    rewrite (merge_one_accepted abp a b src h d Hc Hd Hk).
    destruct (set_symbol_fields h a src "H") as (_ & _ & Hres & _).
    destruct (set_symbol_fields h a b "H") as (_ & _ & Hresb & _).
    simpl in Hres, Hresb. rewrite Hres, Hresb.
    split; [simpl; rewrite length_app, length_alter; simpl; lia|].
    unfold get_residue. simpl h_residues.
    rewrite nth_alter. rewrite length_alter.
    case_decide as Hin; [|exfalso; apply Hin; split; [reflexivity | exact Hvalid]].
    rewrite nth_alter.
    case_decide as Hin'; [destruct Hin'; congruence|].
    split; reflexivity.
Qed.

(** C3: a hydrogen that is dropped, because the search finds no partner,
    because the partner is farther than the gate, or because the key of
    the partner is not in the index, leaves the atom and bond counts of
    the original structure unchanged, and its turn of the loop returns
    without raising.  Only in the last case is a warning logged: it gives
    the serial of the hydrogen and the symbol and position of the partner.
    In that case the partner's residue, which receives the bond, is not a
    residue of the original structure. *)
Theorem C3_dropped_hydrogens (abp : gmap PositionKey aref)
    (atoms : list aref) (orig : Complex) (id : nat) (a : aref) (h : Heap) :
  atoms !! id = Some a ->
  exists h', merge_step abp atoms id h = Ok h' /\
  ((forall c, c ∈ residue_atoms_of h a -> ~ candidate h a c) ->
     atom_count h' orig = atom_count h orig /\
     bond_count h' orig = bond_count h orig /\ h_log h' = h_log h) /\
  (forall d, get_closest_heavy_atom_in_residue h a = (None, d) ->
     atom_count h' orig = atom_count h orig /\
     bond_count h' orig = bond_count h orig /\ h_log h' = h_log h) /\
  (forall b d, get_closest_heavy_atom_in_residue h a = (Some b, d) ->
     (gate < d)%Q ->
     atom_count h' orig = atom_count h orig /\
     bond_count h' orig = bond_count h orig /\ h_log h' = h_log h) /\
  (forall b d, get_closest_heavy_atom_in_residue h a = (Some b, d) ->
     (d <= gate)%Q ->
     abp !! get_position_key (get_atom h b) = None ->
     residue (get_atom h b) ∉ orig ->
     atom_count h' orig = atom_count h orig /\
     bond_count h' orig = bond_count h orig /\
     h_log h' = h_log h ++ [mkWarning (serial (get_atom h a))
                                      (symbol (get_atom h b))
                                      (position (get_atom h b))]).
Proof.
  intros Ha. exists (merge_one abp a h).
  split; [unfold merge_step; rewrite Ha; reflexivity|].
  assert (forall d, get_closest_heavy_atom_in_residue h a = (None, d) ->
     atom_count (merge_one abp a h) orig = atom_count h orig /\
     bond_count (merge_one abp a h) orig = bond_count h orig /\
     h_log (merge_one abp a h) = h_log h) as Hnone.
  { intros d Hc. rewrite (merge_one_no_partner abp a h d Hc).
    destruct (counts_unchanged h (set_symbol h a "H") orig) as [H1 H2];
      [reflexivity|]. repeat split; assumption. }
  split; [|split; [|split]].
  - intros Hno. apply (Hnone minD0). apply get_closest_no_candidate. exact Hno.
  - exact Hnone.
  - intros b d Hc Hd. rewrite (merge_one_too_far abp a b h d Hc Hd).
    destruct (counts_unchanged h (set_symbol h a "H") orig) as [H1 H2];
      [reflexivity|]. repeat split; assumption.
  - intros b d Hc Hd Hk Hsep.
    rewrite (merge_one_unknown abp a b h d Hc Hd Hk).
    destruct (get_closest_some _ _ _ _ Hc) as (_ & [Hne _] & _).
    destruct (set_symbol_fields h a b "H") as (_ & Hpos & Hres & _).
    destruct (set_symbol_fields h a a "H") as (Hser & _).
    simpl in Hpos, Hres, Hser.
    destruct (counts_unchanged h
      (warn (snd (add_bond (set_symbol h a "H") a b))
         (mkWarning (serial (get_atom (set_symbol h a "H") a))
            (symbol (get_atom (set_symbol h a "H") b))
            (position (get_atom (set_symbol h a "H") b)))) orig) as [H1 H2].
    { intros r Hr. unfold get_residue. simpl h_residues.
      rewrite nth_alter. case_decide as Hin; [|reflexivity].
      destruct Hin as [He _]. rewrite Hres in He. subst r. contradiction. }
    split; [exact H1|]. split; [exact H2|].
    simpl. rewrite Hser, Hpos.
    rewrite (get_atom_set_symbol_ne h a b "H") by congruence. reflexivity.
Qed.

End MergeClaims.

Module LoopClaims.
Import HeapFacts MergeSpec SearchFacts MergeFacts FrameFacts.

(** The bond made for a hydrogen that passes the gate is in the residue
    of its partner after the turn, whatever the index answers. *)
Lemma merge_one_bond (abp : gmap PositionKey aref) (a b : aref) (h : Heap)
    (d : Q) :
  get_closest_heavy_atom_in_residue h a = (Some b, d) ->
  (d <= gate)%Q ->
  residue (get_atom h b) < length (h_residues h) ->
  mkBond CovalentSingle a b
    ∈ r_bonds (get_residue (merge_one abp a h) (residue (get_atom h b))).
Proof.
  intros Hc Hd Hvalid.
  destruct (set_symbol_fields h a b "H") as (_ & _ & Hres & _). simpl in Hres.
  assert (mkBond CovalentSingle a b
    ∈ r_bonds (nth (residue (get_atom h b))
                 (alter (residue_add_bond (mkBond CovalentSingle a b))
                    (residue (get_atom (set_symbol h a "H") b)) (h_residues h))
                 dummy_residue)) as Hin.
  { rewrite Hres, nth_alter.
    case_decide as Hdec;
      [|exfalso; apply Hdec; split; [reflexivity | exact Hvalid]].
    simpl. apply elem_of_app. right. left. }
  destruct (abp !! get_position_key (get_atom h b)) as [src|] eqn:Hk.
  - rewrite (merge_one_accepted abp a b src h d Hc Hd Hk).
    unfold get_residue. simpl h_residues.
    match goal with
    | |- _ ∈ r_bonds (nth _ (alter ?f ?r ?rs) _) =>
        destruct (grows_add_atom_bond (length (h_atoms h)) (length (h_atoms h))
                    (mkBond CovalentSingle src (length (h_atoms h))) r rs
                    (Nat.le_refl _)) as [_ Hg]
    end.
    destruct (Hg (residue (get_atom h b))) as (na & nb & _ & Hb & _).
    rewrite Hb. apply elem_of_app. left. exact Hin.
  - rewrite (merge_one_unknown abp a b h d Hc Hd Hk). exact Hin.
Qed.

(** C9: when every index of the list is an index of an atom of the
    deserialized structure, the merge returns, and every atom of the
    original structure, none of which is an atom of the deserialized one,
    has all its fields as before; no residue is created or removed, and
    each residue has its atoms and bonds of before, followed by new bonds
    and by atoms allocated by the merge. *)
Theorem C9_existing_atoms_kept (abp : gmap PositionKey aref)
    (result_complex original : Complex) (hydrogen_ids : list nat) (h : Heap) :
  Forall (fun id => id < length (complex_atoms h result_complex)) hydrogen_ids ->
  (forall x, x ∈ complex_atoms h original ->
     x < length (h_atoms h) /\ x ∉ complex_atoms h result_complex) ->
  exists h',
    match_and_update abp result_complex hydrogen_ids h = Ok h' /\
    (forall x, x ∈ complex_atoms h original -> get_atom h' x = get_atom h x) /\
    length (h_residues h') = length (h_residues h) /\
    (forall r, exists na nb,
       r_atoms (get_residue h' r) = r_atoms (get_residue h r) ++ na /\
       r_bonds (get_residue h' r) = r_bonds (get_residue h r) ++ nb /\
       Forall (fun x => length (h_atoms h) <= x) na).
Proof.
  intros Hids Hsep. unfold match_and_update.
  destruct (merge_loop_total abp _ _ h Hids) as [h' Hrun].
  exists h'. split; [exact Hrun|].
  destruct (merge_loop_frame _ _ _ _ _ Hrun) as (_ & [Hlen Hg] & Hother & _).
  split; [|split; [exact Hlen | exact Hg]].
  intros x Hx. destruct (Hsep x Hx) as [Hlt Hnot]. apply Hother; assumption.
Qed.

(** C10: the merge writes to the deserialized structure.  When it returns,
    every atom at an index of the list has the symbol "H"; and for the
    hydrogen at any index of the list, if at its turn a partner is found
    within the gate, the covalent single bond from the hydrogen to the
    partner is among the bonds of the partner's residue at the end,
    whether or not the partner's key was in the index. *)
Theorem C10_result_structure_mutated (abp : gmap PositionKey aref)
    (result_complex : Complex) (pre post : list nat) (id : nat) (h : Heap) :
  Forall (fun i => i < length (complex_atoms h result_complex))
         (pre ++ id :: post) ->
  Forall (fun x => x < length (h_atoms h)) (complex_atoms h result_complex) ->
  exists h1 h' a,
    merge_loop abp (complex_atoms h result_complex) pre h = Ok h1 /\
    match_and_update abp result_complex (pre ++ id :: post) h = Ok h' /\
    (complex_atoms h result_complex) !! id = Some a /\
    (forall i x, i ∈ pre ++ id :: post ->
       (complex_atoms h result_complex) !! i = Some x ->
       symbol (get_atom h' x) = "H"%string) /\
    (forall b d,
       get_closest_heavy_atom_in_residue h1 a = (Some b, d) ->
       (d <= gate)%Q ->
       residue (get_atom h1 b) < length (h_residues h1) ->
       mkBond CovalentSingle a b
         ∈ r_bonds (get_residue h' (residue (get_atom h1 b)))).
Proof.
  intros Hids Halloc. unfold match_and_update.
  set (atoms := complex_atoms h result_complex) in *.
  destruct (merge_loop_total abp atoms _ h Hids) as [h' Hrun].
  pose proof Hrun as Hsplit. rewrite merge_loop_app in Hsplit.
  destruct (merge_loop abp atoms pre h) as [h1|e] eqn:Hpre;
    simpl in Hsplit; [|discriminate].
  unfold merge_step in Hsplit.
  destruct (atoms !! id) as [a|] eqn:Ha; simpl in Hsplit; [|discriminate].
  exists h1, h', a.
  split; [reflexivity|]. split; [exact Hrun|]. split; [reflexivity|].
  split.
  - intros i x Hi Hx.
    destruct (merge_loop_frame _ _ _ _ _ Hrun) as (_ & _ & _ & _ & _ & Hsym).
    apply (Hsym i x Hi Hx).
    apply (proj1 (Forall_forall _ _) Halloc x).
    apply list_elem_of_lookup. exists i. exact Hx.
  - intros b d Hc Hd Hvalid.
    pose proof (merge_one_bond abp a b h1 d Hc Hd Hvalid) as Hin.
    destruct (merge_loop_frame _ _ _ _ _ Hsplit) as (_ & [_ Hg] & _).
    destruct (Hg (residue (get_atom h1 b))) as (na & nb & _ & Hb & _).
    unfold get_residue in *. rewrite Hb. apply elem_of_app. left. exact Hin.
Qed.

End LoopClaims.

(** ** The merge on the example heap *)

Module MergeExamples.
Import HeapFacts MergeSpec SearchFacts MergeFacts FrameFacts MergeClaims
       LoopClaims MergeFixtures.

Lemma near_partner :
  get_closest_heavy_atom_in_residue heap0 2 = (Some 1, dist_to heap0 2 1).
Proof. reflexivity. Defined.

Lemma near_within_gate : (dist_to heap0 2 1 <= gate)%Q.
Proof. intros H. discriminate H. Defined.

Lemma near_key_found : index0 !! get_position_key (get_atom heap0 1) = Some 0.
Proof. reflexivity. Defined.

Lemma far_partner :
  get_closest_heavy_atom_in_residue heap0 3 = (Some 1, dist_to heap0 3 1).
Proof. reflexivity. Defined.

Lemma far_beyond_gate : (gate < dist_to heap0 3 1)%Q.
Proof. reflexivity. Defined.

Lemma far_nearest (c : aref) :
  c ∈ residue_atoms_of heap0 3 -> candidate heap0 3 c ->
  (dist_to heap0 3 1 <= dist_to heap0 3 c)%Q.
Proof.
  intros Hc [Hne Hsym].
  destruct c as [|[|[|[|c]]]].
  - intros H. discriminate H.
  - intros H. discriminate H.
  - exfalso. apply Hsym. reflexivity.
  - exfalso. apply Hne. reflexivity.
  - exfalso.
    apply elem_of_cons in Hc as [Hc | Hc]; [discriminate Hc|].
    apply elem_of_cons in Hc as [Hc | Hc]; [discriminate Hc|].
    apply elem_of_cons in Hc as [Hc | Hc]; [discriminate Hc|].
    inversion Hc.
Defined.

Lemma unknown_partner :
  get_closest_heavy_atom_in_residue heap0 6 = (Some 5, dist_to heap0 6 5).
Proof. reflexivity. Defined.

Lemma unknown_within_gate : (dist_to heap0 6 5 <= gate)%Q.
Proof. intros H. discriminate H. Defined.

Lemma unknown_key_missing :
  index0 !! get_position_key (get_atom heap0 5) = None.
Proof. reflexivity. Defined.

Lemma unknown_separate : residue (get_atom heap0 5) ∉ original.
Proof.
  intros H. apply elem_of_cons in H as [H | H]; [discriminate H | inversion H].
Defined.

Lemma ids_in_range :
  Forall (fun id => id < length (complex_atoms heap0 deserialized)) [1; 2; 3; 5].
Proof. repeat constructor. Defined.

Lemma result_allocated :
  Forall (fun x => x < length (h_atoms heap0)) (complex_atoms heap0 deserialized).
Proof. repeat constructor. Defined.

Lemma original_separate (x : aref) :
  x ∈ complex_atoms heap0 original ->
  x < length (h_atoms heap0) /\ x ∉ complex_atoms heap0 deserialized.
Proof.
  intros Hx. apply elem_of_cons in Hx as [-> | Hx]; [|inversion Hx].
  split; [repeat constructor|].
  intros H.
  repeat (apply elem_of_cons in H as [H | H]; [discriminate H|]).
  inversion H.
Defined.

(** The hydrogen at 1.99 of the carbon takes the rendering state of the
    original carbon, not its own. *)
Lemma C1_metadata_propagation_witness :
  get_closest_heavy_atom_in_residue heap0 2 = (Some 1, dist_to heap0 2 1) /\
  (dist_to heap0 2 1 <= gate)%Q /\
  index0 !! get_position_key (get_atom heap0 1) = Some 0 /\
  let h' := merge_one index0 2 heap0 in
  let new_atom := get_atom h' (length (h_atoms heap0)) in
  length (h_atoms h') = S (length (h_atoms heap0)) /\
  selected new_atom = selected (get_atom heap0 0) /\
  is_het new_atom = is_het (get_atom heap0 0) /\
  display_mode new_atom = display_mode (get_atom heap0 0) /\
  bfactor new_atom = bfactor (get_atom heap0 0) /\
  occupancy new_atom = occupancy (get_atom heap0 0) /\
  residue new_atom = residue (get_atom heap0 0) /\
  serial new_atom = serial (get_atom heap0 2) /\
  position new_atom = position (get_atom heap0 2).
Proof.
  split; [exact near_partner|]. split; [exact near_within_gate|].
  split; [exact near_key_found|].
  exact (C1_metadata_propagation index0 2 1 0 heap0 (dist_to heap0 2 1)
           near_partner near_within_gate near_key_found).
Defined.

Example new_hydrogen_differs_from_deserialized :
  let new_atom := get_atom (merge_one index0 2 heap0) 7 in
  selected new_atom = true /\ selected (get_atom heap0 2) = false /\
  display_mode new_atom = 3%Z /\ display_mode (get_atom heap0 2) = 0%Z /\
  bfactor new_atom = (25 # 2)%Q /\ bfactor (get_atom heap0 2) = 0%Q.
Proof. repeat split. Qed.

(** The hydrogen at 2.01 is dropped, the one at 1.99 is attached. *)
Lemma C2_distance_gate_witness :
  (1 ∈ residue_atoms_of heap0 3 /\ candidate heap0 3 1 /\
   (gate < dist_to heap0 3 1)%Q /\
   merge_one index0 3 heap0 = set_symbol heap0 3 "H" /\
   forall c : Complex,
     atom_count (merge_one index0 3 heap0) c = atom_count heap0 c /\
     bond_count (merge_one index0 3 heap0) c = bond_count heap0 c) /\
  ((dist_to heap0 2 1 <= gate)%Q /\
   residue (get_atom heap0 0) < length (h_residues heap0) /\
   residue (get_atom heap0 0) <> residue (get_atom heap0 1) /\
   let h' := merge_one index0 2 heap0 in
   let rs := residue (get_atom heap0 0) in
   let new_atom := length (h_atoms heap0) in
   length (h_atoms h') = S (length (h_atoms heap0)) /\
   r_atoms (get_residue h' rs) = r_atoms (get_residue heap0 rs) ++ [new_atom] /\
   r_bonds (get_residue h' rs) =
     r_bonds (get_residue heap0 rs) ++ [mkBond CovalentSingle 0 new_atom]).
Proof.
  assert (1 ∈ residue_atoms_of heap0 3) as Hin by left.
  assert (candidate heap0 3 1) as Hcand by (split; discriminate).
  assert (residue (get_atom heap0 0) < length (h_residues heap0)) as Hvalid
    by (repeat constructor).
  assert (residue (get_atom heap0 0) <> residue (get_atom heap0 1)) as Hsep
    by discriminate.
  split.
  - split; [exact Hin|]. split; [exact Hcand|]. split; [exact far_beyond_gate|].
    exact (proj1 (C2_distance_gate index0 3 heap0) 1 Hin Hcand far_nearest
             far_beyond_gate).
  - split; [exact near_within_gate|]. split; [exact Hvalid|].
    split; [exact Hsep|].
    exact (proj2 (C2_distance_gate index0 2 heap0) 1 (dist_to heap0 2 1) 0
             near_partner near_within_gate near_key_found Hvalid Hsep).
Defined.

(** The hydrogen of the nitrogen, which the original structure does not
    have, is dropped with a warning. *)
Lemma C3_dropped_hydrogens_witness :
  ((complex_atoms heap0 deserialized) !! 5 = Some 6) /\
  (dist_to heap0 6 5 <= gate)%Q /\
  index0 !! get_position_key (get_atom heap0 5) = None /\
  (residue (get_atom heap0 5) ∉ original) /\
  exists h',
    merge_step index0 (complex_atoms heap0 deserialized) 5 heap0 = Ok h' /\
    atom_count h' original = atom_count heap0 original /\
    bond_count h' original = bond_count heap0 original /\
    h_log h' = h_log heap0 ++ [mkWarning (serial (get_atom heap0 6))
                                         (symbol (get_atom heap0 5))
                                         (position (get_atom heap0 5))].
Proof.
  split; [reflexivity|]. split; [exact unknown_within_gate|].
  split; [exact unknown_key_missing|]. split; [exact unknown_separate|].
  destruct (C3_dropped_hydrogens index0 (complex_atoms heap0 deserialized)
              original 5 6 heap0 eq_refl) as (h' & Hrun & _ & _ & _ & Hmiss).
  exists h'. split; [exact Hrun|].
  exact (Hmiss 5 (dist_to heap0 6 5) unknown_partner unknown_within_gate
           unknown_key_missing unknown_separate).
Defined.

Lemma C9_existing_atoms_kept_witness :
  Forall (fun id => id < length (complex_atoms heap0 deserialized)) [1; 2; 3; 5] /\
  (forall x, x ∈ complex_atoms heap0 original ->
     x < length (h_atoms heap0) /\ x ∉ complex_atoms heap0 deserialized) /\
  exists h',
    match_and_update index0 deserialized [1; 2; 3; 5] heap0 = Ok h' /\
    (forall x, x ∈ complex_atoms heap0 original ->
       get_atom h' x = get_atom heap0 x) /\
    length (h_residues h') = length (h_residues heap0) /\
    (forall r, exists na nb,
       r_atoms (get_residue h' r) = r_atoms (get_residue heap0 r) ++ na /\
       r_bonds (get_residue h' r) = r_bonds (get_residue heap0 r) ++ nb /\
       Forall (fun x => length (h_atoms heap0) <= x) na).
Proof.
  split; [exact ids_in_range|]. split; [exact original_separate|].
  exact (C9_existing_atoms_kept index0 deserialized original [1; 2; 3; 5] heap0
           ids_in_range original_separate).
Defined.

Lemma C10_result_structure_mutated_witness :
  Forall (fun i => i < length (complex_atoms heap0 deserialized))
         ([1; 2; 3] ++ 5 :: []) /\
  Forall (fun x => x < length (h_atoms heap0)) (complex_atoms heap0 deserialized) /\
  exists h1 h' a,
    merge_loop index0 (complex_atoms heap0 deserialized) [1; 2; 3] heap0 = Ok h1 /\
    match_and_update index0 deserialized ([1; 2; 3] ++ 5 :: []) heap0 = Ok h' /\
    (complex_atoms heap0 deserialized) !! 5 = Some a /\
    (forall i x, i ∈ [1; 2; 3] ++ 5 :: [] ->
       (complex_atoms heap0 deserialized) !! i = Some x ->
       symbol (get_atom h' x) = "H"%string) /\
    (forall b d,
       get_closest_heavy_atom_in_residue h1 a = (Some b, d) ->
       (d <= gate)%Q ->
       residue (get_atom h1 b) < length (h_residues h1) ->
       mkBond CovalentSingle a b
         ∈ r_bonds (get_residue h' (residue (get_atom h1 b)))).
Proof.
  split; [exact ids_in_range|]. split; [exact result_allocated|].
  exact (C10_result_structure_mutated index0 deserialized [1; 2; 3] [] 5 heap0
           ids_in_range result_allocated).
Defined.

(** The whole merge on the example: the atom that had symbol "X" is now
    "H"; one hydrogen and one bond have joined the original residue; the
    deserialized residues 1 and 3 hold the bonds made for the two
    hydrogens that passed the gate, that of residue 3 although its
    hydrogen was dropped; one warning is logged. *)
Example merge_example :
  exists h',
    match_and_update index0 deserialized [1; 2; 3; 5] heap0 = Ok h' /\
    symbol (get_atom h' 4) = "H"%string /\
    get_residue h' 0 = mkResidue [0; 7] [mkBond CovalentSingle 0 7] /\
    get_residue h' 1 = mkResidue [1; 2; 3] [mkBond CovalentSingle 2 1] /\
    get_residue h' 2 = mkResidue [4] [] /\
    get_residue h' 3 = mkResidue [5; 6] [mkBond CovalentSingle 6 5] /\
    h_log h' = [mkWarning 6 "N" (mkVector3 5 5 5)] /\
    get_atom h' 0 = get_atom heap0 0.
Proof. eexists. split; [reflexivity|]. repeat split. Qed.

End MergeExamples.

(** ** The batch *)

Module BatchClaims.
Import MergeFixtures.

(** A non-zero exit code of the tool stops the whole batch: the
    notification is never sent, because the name [self] does not exist in
    [call_HAAD]. *)
Lemma add_hydrogens_tool_failure
    (run_haad : Heap -> Complex -> Z * list Text.line)
    (from_pdb : list Text.line -> Heap -> Complex * Heap)
    (c : Complex) (cs : list Complex) (h : Heap) :
  fst (run_haad h c) <> 0%Z ->
  add_hydrogens run_haad from_pdb (c :: cs) h = Raise NameError.
Proof.
  intros Hexit. simpl. unfold call_HAAD.
  destruct (run_haad h c) as [exit_code lines]. simpl in Hexit.
  apply Z.eqb_neq in Hexit. rewrite Hexit. reflexivity.
Qed.

(** C4 (code bug): the failing input.  The tool fails on the first of two
    structures; the batch stops with [NameError] instead of notifying and
    going on to the second structure, which alone is processed without
    error. *)
Theorem C4_tool_failure_aborts_batch :
  fst (run_first_fails heap0 original) = 1%Z /\
  add_hydrogens run_first_fails from_pdb_empty [original; deserialized] heap0
    = Raise NameError /\
  add_hydrogens run_first_fails from_pdb_empty [deserialized] heap0 = Ok heap0.
Proof.
  split; [reflexivity|]. split.
  - apply add_hydrogens_tool_failure. discriminate.
  - reflexivity.
Qed.

End BatchClaims.

(** * Further properties of the text passes *)

Module TextMore.
Import Text TextSpec TextFacts RepairFacts RepairClaims Fixtures.

(** A result of the test is the value of [marked], on a readable status. *)
Lemma is_new_hydrogen_ok_inv (l : line) (b : bool) :
  is_new_hydrogen l = Ok b -> status_ok l = true /\ b = marked l.
Proof.
  intros H. destruct (status_ok l) eqn:E.
  - rewrite (is_new_hydrogen_marked _ E) in H. inversion H. split; reflexivity.
  - rewrite (is_new_hydrogen_not_ok _ E) in H. discriminate.
Qed.

Lemma new_hydrogens_loop_inv (lines : list line) : forall id acc ids,
  new_hydrogens_loop lines id acc = Ok ids ->
  Forall (fun l => status_ok l = true) lines /\ ids = acc ++ marked_from lines id.
Proof.
  induction lines as [|l rest IH]; intros id acc ids Hrun; simpl in Hrun.
  - inversion Hrun. rewrite app_nil_r. split; [constructor | reflexivity].
  - destruct (is_new_hydrogen l) as [b|e] eqn:Eb; simpl in Hrun; [|discriminate].
    destruct (is_new_hydrogen_ok_inv _ _ Eb) as [Hok ->].
    destruct (IH _ _ _ Hrun) as [Hrest ->].
    split; [constructor; assumption|]. simpl.
    destruct (marked l); [rewrite <- app_assoc|]; reflexivity.
Qed.

Lemma new_hydrogens_in_range (lines : list line) (ids : list nat) :
  new_hydrogens lines = Ok ids ->
  Forall (fun i => i < length lines) ids.
Proof.
  intros Hrun. destruct (new_hydrogens_loop_inv _ _ _ _ Hrun) as [_ ->].
  simpl. apply Forall_forall. intros i Hi.
  apply marked_from_elem in Hi as (l & _ & Hl & _).
  apply lookup_lt_Some in Hl. lia.
Qed.

(** X1: every index returned by the identification loop of [call_HAAD] is
    the index of a line of the file. *)
Theorem X1_new_hydrogens_in_range (lines : list line) (ids : list nat) :
  new_hydrogens lines = Ok ids ->
  Forall (fun i => i < length lines) ids.
Proof. exact (new_hydrogens_in_range lines ids). Qed.

Lemma X1_new_hydrogens_in_range_witness :
  new_hydrogens five_statuses = Ok [0; 1] /\
  Forall (fun i => i < length five_statuses) [0; 1].
Proof.
  split; [reflexivity|].
  exact (X1_new_hydrogens_in_range five_statuses [0; 1] eq_refl).
Defined.

Lemma scan_back_some (lines : list line) (n : nat) (l : option line) lv :
  scan_back lines n l = Some lv -> has_chain_before lines n \/ l = Some lv.
Proof.
  induction n as [|i IH]; simpl; intros H; [right; exact H|].
  destruct (chain_bearing (nth i lines [])) eqn:Ec.
  - left. destruct (lines !! i) as [li|] eqn:Ei.
    + exists i, li. rewrite (nth_lookup_Some _ _ _ _ Ei) in Ec.
      split; [lia | split; [exact Ei | exact Ec]].
    + rewrite nth_overflow in Ec by (apply lookup_ge_None; exact Ei).
      discriminate.
  - destruct (IH H) as [Hb | Hl]; [left | right; exact Hl].
    eapply has_chain_before_mono; [|exact Hb]. lia.
Qed.

(** When the loop of the repair pass returns, every status it read was
    readable and every marked line it visited, the first line of the file
    apart, had a chain-bearing line before it. *)
Lemma fix_loop_ok_inv (lines : list line) : forall rest pre id l out out',
  lines = pre ++ rest ->
  id = length pre ->
  (l <> None -> has_chain_before lines id) ->
  fix_loop lines rest id l out = Ok out' ->
  Forall (fun x => status_ok x = true) rest /\
  (forall k cur, id <= k -> 0 < k -> lines !! k = Some cur ->
     marked cur = true -> has_chain_before lines k).
Proof.
  intros rest.
  induction rest as [|cur rest IH]; intros pre id l out out' Hl Hid Hinv Hrun.
  - split; [constructor|]. intros k c Hk _ Hc.
    apply lookup_lt_Some in Hc. rewrite Hl, app_nil_r in Hc. lia.
  - assert (lines !! id = Some cur) as Hat.
    { rewrite Hl, Hid. rewrite lookup_app_r by lia.
      rewrite Nat.sub_diag. reflexivity. }
    assert (lines = (pre ++ [cur]) ++ rest) as Hl'
      by (rewrite <- app_assoc; exact Hl).
    assert (S id = length (pre ++ [cur])) as Hid'
      by (rewrite length_app; simpl; lia).
    simpl in Hrun.
    destruct (is_new_hydrogen cur) as [b|e] eqn:Eb; simpl in Hrun; [|discriminate].
    destruct (is_new_hydrogen_ok_inv _ _ Eb) as [Hok ->].
    destruct (marked cur && (0 <? id)) eqn:Ecase.
    + destruct (scan_back lines id l) as [lv|] eqn:Escan; [|discriminate].
      assert (has_chain_before lines id) as Hhere.
      { destruct (scan_back_some _ _ _ _ Escan) as [H | H]; [exact H|].
        apply Hinv. congruence. }
      assert (has_chain_before lines (S id)) as Hnext
        by (eapply has_chain_before_mono; [|exact Hhere]; lia).
      assert (exists out1, fix_loop lines rest (S id) (Some lv) out1 = Ok out')
        as [out1 Hrec].
      { destruct (same_residue cur lv); [|eexists; exact Hrun].
        destruct (index lv 21) as [c|e]; simpl in Hrun; [|discriminate].
        eexists. exact Hrun. }
      destruct (IH _ _ _ _ _ Hl' Hid' (fun _ => Hnext) Hrec) as [Hrest Hk].
      split; [constructor; assumption|].
      intros k c Hle Hpos Hc Hm. destruct (decide (k = id)) as [-> | Hne].
      * exact Hhere.
      * apply (Hk k c); (lia || assumption).
    + assert (l <> None -> has_chain_before lines (S id)) as Hinv'.
      { intros Hne. eapply has_chain_before_mono; [|apply Hinv; exact Hne]. lia. }
      destruct (IH _ _ _ _ _ Hl' Hid' Hinv' Hrun) as [Hrest Hk].
      split; [constructor; assumption|].
      intros k c Hle Hpos Hc Hm. destruct (decide (k = id)) as [-> | Hne].
      * assert (c = cur) as -> by congruence.
        rewrite Hm in Ecase. simpl in Ecase. apply Nat.ltb_ge in Ecase. lia.
      * apply (Hk k c); (lia || assumption).
Qed.

Lemma fix_haad_chains_ok_inv (lines out : list line) :
  fix_haad_chains lines = Ok out ->
  Forall (fun l => status_ok l = true) lines /\ chains_found lines.
Proof.
  intros Hrun.
  destruct (fix_loop_ok_inv lines lines [] 0 None lines out eq_refl eq_refl)
    as [Hok Hk]; [congruence | exact Hrun |].
  split; [exact Hok|]. intros k cur Hpos Hcur Hm.
  apply (Hk k cur); (lia || assumption).
Qed.

(** X2: the repair pass returns exactly when every status column can be
    read (absent, blank or a digit) and every marked line other than the
    first line of the file has a chain-bearing line somewhere before it;
    in every other case it raises and writes nothing. *)
Theorem X2_fix_haad_chains_returns_iff (lines : list line) :
  (exists out, fix_haad_chains lines = Ok out) <->
  Forall (fun l => status_ok l = true) lines /\ chains_found lines.
Proof.
  split.
  - intros [out Hrun]. exact (fix_haad_chains_ok_inv _ _ Hrun).
  - intros [Hok Hfound].
    destruct (fix_loop_spec lines Hfound lines [] 0 None lines)
      as (out & Hrun & _);
      [reflexivity | reflexivity | reflexivity | reflexivity |
       congruence | exact Hok |].
    exists out. exact Hrun.
Qed.

(** What the pass writes for each line, whenever it returns. *)
Lemma fix_haad_chains_expected (lines out : list line) :
  fix_haad_chains lines = Ok out ->
  length out = length lines /\
  forall k cur, lines !! k = Some cur -> out !! k = Some (expected lines k cur).
Proof.
  intros Hrun.
  destruct (fix_haad_chains_ok_inv _ _ Hrun) as [Hok Hfound].
  destruct (fix_loop_spec lines Hfound lines [] 0 None lines)
    as (out2 & Hrun2 & Hlen & _ & Hpost);
    [reflexivity | reflexivity | reflexivity | reflexivity |
     congruence | exact Hok |].
  unfold fix_haad_chains in Hrun. rewrite Hrun in Hrun2. inversion Hrun2; subst out2.
  split; [exact Hlen|]. intros k cur Hcur. apply Hpost; [lia | exact Hcur].
Qed.

(** X3: when the repair pass returns, it has written as many lines as it
    read, in the same order; the first line of the file and every line that
    is not marked are written back as they were read; and each line written
    is the line read or its repair with the chain character, never blank,
    of a chain-bearing line that comes before it in the file. *)
Theorem X3_fix_haad_chains_frame (lines out : list line) :
  fix_haad_chains lines = Ok out ->
  length out = length lines /\
  (forall cur, lines !! 0 = Some cur -> out !! 0 = Some cur) /\
  (forall k cur, lines !! k = Some cur -> marked cur = false ->
     out !! k = Some cur) /\
  (forall k cur, lines !! k = Some cur ->
     out !! k = Some cur \/
     exists j lv ch, j < k /\ lines !! j = Some lv /\ lv !! 21 = Some ch /\
       ch <> blank /\ same_residue cur lv = true /\
       out !! k = Some (repair cur ch)).
Proof.
  intros Hrun.
  destruct (fix_haad_chains_expected _ _ Hrun) as [Hlen Hexp].
  destruct (fix_haad_chains_ok_inv _ _ Hrun) as [_ Hfound].
  split; [exact Hlen|]. split; [|split].
  - intros cur Hcur. rewrite (Hexp 0 cur Hcur). unfold expected.
    rewrite andb_false_r. reflexivity.
  - intros k cur Hcur Hm. rewrite (Hexp k cur Hcur). unfold expected.
    rewrite Hm. reflexivity.
  - intros k cur Hcur. rewrite (Hexp k cur Hcur). unfold expected.
    destruct (marked cur && (0 <? k)) eqn:Ecase; [|left; reflexivity].
    apply andb_true_iff in Ecase as [Hm Hpos]. apply Nat.ltb_lt in Hpos.
    destruct (has_chain_nearest lines k (Hfound k cur Hpos Hcur Hm))
      as (j & lv & Hnear).
    rewrite (scan_back_nearest _ _ _ _ None Hnear).
    destruct (same_residue cur lv) eqn:Esame; [right | left; reflexivity].
    destruct Hnear as (Hj & Hlv & Hc & _).
    pose proof (chain_bearing_index _ Hc) as Hidx. unfold index in Hidx.
    destruct (lv !! 21) as [ch|] eqn:Ech; [|discriminate].
    inversion Hidx as [Hch].
    exists j, lv, (nth 21 lv blank).
    split; [exact Hj|]. split; [exact Hlv|]. split; [congruence|].
    split; [|split; [exact Esame | reflexivity]].
    unfold chain_bearing in Hc. apply andb_true_iff in Hc as [_ Hc].
    intros Hb. rewrite Hb, Ascii.eqb_refl in Hc. discriminate.
Qed.

Lemma X3_fix_haad_chains_frame_witness :
  fix_haad_chains demo_lines
    = Ok [heavy_A; repair hydrogen_same "A"; hydrogen_other] /\
  length [heavy_A; repair hydrogen_same "A"; hydrogen_other]
    = length demo_lines.
Proof.
  split; [reflexivity|].
  exact (proj1 (X3_fix_haad_chains_frame demo_lines
                  [heavy_A; repair hydrogen_same "A"; hydrogen_other] eq_refl)).
Defined.

End TextMore.

Module StatusMore.
Import Text TextSpec TextFacts RepairFacts RepairClaims TextMore Fixtures.

(** A line of 24 characters or more: 21 characters, the chain column, a
    middle part and the last two characters. *)
Lemma line_decompose (cur : line) :
  24 <= length cur ->
  exists a x b y z, cur = a ++ x :: b ++ [y; z] /\ length a = 21 /\
                    length b = length cur - 24.
Proof.
  intros Hlen.
  destruct (drop 21 cur) as [|x rest] eqn:Ed.
  { apply (f_equal length) in Ed. rewrite length_drop in Ed. simpl in Ed. lia. }
  assert (length rest = length cur - 22) as Hrest.
  { pose proof (f_equal length Ed) as E. rewrite length_drop in E.
    simpl in E. lia. }
  destruct (drop (length rest - 2) rest) as [|y [|z [|w tl]]] eqn:Et;
    pose proof (f_equal length Et) as E; rewrite length_drop in E; simpl in E;
    try lia.
  exists (take 21 cur), x, (take (length rest - 2) rest), y, z.
  split.
  - rewrite <- Et, take_drop, <- Ed, take_drop. reflexivity.
  - rewrite !length_take. split; lia.
Qed.

Lemma marked_lookup (l : line) :
  marked l = true <->
  exists c, l !! 56 = Some c /\ is_digit c = true /\ nat_of_ascii c - 48 < 2.
Proof.
  unfold marked. split.
  - destruct (l !! 56) as [c|]; [|discriminate]. intros H.
    apply andb_true_iff in H as [Hd Hv]. apply Nat.ltb_lt in Hv.
    exists c. repeat split; assumption.
  - intros (c & -> & Hd & Hv). rewrite Hd. apply Nat.ltb_lt. exact Hv.
Qed.

Lemma repair_status (cur : line) (c : ascii) :
  marked cur = true ->
  length (repair cur c) = length cur + 22 /\
  (58 <= length cur -> marked (repair cur c) = true) /\
  (length cur = 57 -> is_new_hydrogen (repair cur c) = Raise ValueError).
Proof.
  intros Hm. pose proof Hm as Hm'.
  apply marked_lookup in Hm' as (s & Hs & Hd & Hv).
  pose proof (lookup_lt_Some _ _ _ Hs) as Hlen.
  destruct (line_decompose cur) as (a & x & b & y & z & Hcur & Ha & _); [lia|].
  subst cur.
  assert (length (a ++ x :: b ++ [y; z]) = length b + 24) as HL.
  { rewrite length_app. simpl. rewrite length_app. simpl. lia. }
  rewrite HL in *.
  rewrite (repair_shape a b x y z c Ha).
  assert (forall (u : ascii) (t : line),
            (a ++ u :: b ++ t) !! 56 = (b ++ t) !! 34) as Hat.
  { intros u t. rewrite lookup_app_r by lia. rewrite Ha. reflexivity. }
  split; [|split].
  - rewrite length_app. simpl. rewrite length_app. simpl. lia.
  - intros H58. apply marked_lookup.
    destruct (decide (length b = 34)) as [E58 | N58].
    + exists "1"%char. split; [|split; [reflexivity | simpl; lia]].
      rewrite (Hat c placeholder). rewrite lookup_app_r by lia.
      replace (34 - length b) with 0 by lia. reflexivity.
    + exists s. split; [|split; assumption].
      rewrite (Hat c placeholder). rewrite lookup_app_l by lia.
      rewrite (Hat x [y; z]) in Hs. rewrite lookup_app_l in Hs by lia.
      exact Hs.
  - intros H57.
    apply (is_new_hydrogen_raises _ "."%char); [|discriminate | reflexivity].
    rewrite (Hat c placeholder). rewrite lookup_app_r by lia.
    replace (34 - length b) with 1 by lia. reflexivity.
Qed.

(** X4: the repair of a marked line of 58 characters or more is again a
    marked line, 22 characters longer, so that the identification that
    follows in [call_HAAD] finds it again; the repair of a marked line of
    exactly 57 characters has a point in its status column, on which that
    identification raises [ValueError]. *)
Theorem X4_repair_status (cur : line) (c : ascii) :
  marked cur = true ->
  length (repair cur c) = length cur + 22 /\
  (58 <= length cur -> marked (repair cur c) = true) /\
  (length cur = 57 -> is_new_hydrogen (repair cur c) = Raise ValueError).
Proof. exact (repair_status cur c). Qed.

Lemma X4_repair_status_witness :
  marked hydrogen_same = true /\
  length (repair hydrogen_same "A") = length hydrogen_same + 22 /\
  (58 <= length hydrogen_same -> marked (repair hydrogen_same "A") = true) /\
  (length hydrogen_same = 57 ->
     is_new_hydrogen (repair hydrogen_same "A") = Raise ValueError).
Proof.
  split; [reflexivity|].
  exact (X4_repair_status hydrogen_same "A" eq_refl).
Defined.

Lemma marked_from_ext (l1 l2 : list line) : forall id,
  Forall2 (fun a b => marked a = marked b) l1 l2 ->
  marked_from l1 id = marked_from l2 id.
Proof.
  intros id H. revert id.
  induction H as [|a b l1 l2 Hab H IH]; intros id; simpl; [reflexivity|].
  rewrite Hab, !IH. reflexivity.
Qed.

Lemma new_hydrogens_after_fix (lines out : list line) :
  fix_haad_chains lines = Ok out ->
  Forall (fun l => marked l = true -> 58 <= length l) lines ->
  new_hydrogens out = new_hydrogens lines /\
  exists ids, new_hydrogens out = Ok ids.
Proof.
  intros Hrun Hlong.
  destruct (fix_haad_chains_expected _ _ Hrun) as [Hlen Hexp].
  destruct (fix_haad_chains_ok_inv _ _ Hrun) as [Hok _].
  assert (forall k cur, lines !! k = Some cur ->
            marked (expected lines k cur) = marked cur) as Hsame.
  { intros k cur Hcur. unfold expected.
    destruct (marked cur && (0 <? k)) eqn:Ecase; [|reflexivity].
    apply andb_true_iff in Ecase as [Hm _].
    destruct (scan_back lines k None) as [lv|]; [|reflexivity].
    destruct (same_residue cur lv); [|reflexivity].
    rewrite Hm. apply repair_status; [exact Hm|].
    apply (proj1 (Forall_forall _ _) Hlong cur); [|exact Hm].
    apply list_elem_of_lookup. exists k. exact Hcur. }
  assert (Forall2 (fun a b => marked a = marked b) out lines) as Hrel.
  { apply Forall2_same_length_lookup. split; [exact Hlen|].
    intros k a b Ha Hb. rewrite (Hexp k b Hb) in Ha. inversion Ha.
    apply Hsame. exact Hb. }
  assert (Forall (fun l => status_ok l = true) out) as Hok'.
  { apply Forall_lookup. intros k a Ha.
    destruct (lookup_lt_is_Some_2 lines k) as [b Hb];
      [rewrite <- Hlen; apply (lookup_lt_Some _ _ _ Ha)|].
    pose proof (proj1 (Forall_lookup _ _) Hok k b Hb) as Hokb. simpl in Hokb.
    rewrite (Hexp k b Hb) in Ha. inversion Ha; subst a.
    pose proof (Hsame k b Hb) as Hmk.
    destruct (marked b) eqn:Em.
    - apply marked_status_ok. exact Hmk.
    - unfold expected. rewrite Em. simpl. exact Hokb. }
  unfold new_hydrogens.
  rewrite (new_hydrogens_loop_marked _ 0 [] Hok').
  rewrite (new_hydrogens_loop_marked _ 0 [] Hok).
  rewrite (marked_from_ext _ _ 0 Hrel).
  split; [reflexivity | eexists; reflexivity].
Qed.

(** X5: when the repair pass returns and every marked line has at least
    58 characters, the identification run on the repaired lines returns
    the same indices as it would on the lines read: repairing changes no
    line's being a new hydrogen. *)
Theorem X5_new_hydrogens_after_fix (lines out : list line) :
  fix_haad_chains lines = Ok out ->
  Forall (fun l => marked l = true -> 58 <= length l) lines ->
  new_hydrogens out = new_hydrogens lines /\
  exists ids, new_hydrogens out = Ok ids.
Proof. exact (new_hydrogens_after_fix lines out). Qed.

End StatusMore.

Module StatusExamples.
Import Text TextSpec TextFacts RepairFacts RepairClaims TextMore StatusMore
       Fixtures.

Lemma demo_long : Forall (fun l => marked l = true -> 58 <= length l) demo_lines.
Proof. repeat constructor; intros _; repeat constructor. Defined.

Lemma X5_new_hydrogens_after_fix_witness :
  fix_haad_chains demo_lines
    = Ok [heavy_A; repair hydrogen_same "A"; hydrogen_other] /\
  Forall (fun l => marked l = true -> 58 <= length l) demo_lines /\
  new_hydrogens [heavy_A; repair hydrogen_same "A"; hydrogen_other]
    = new_hydrogens demo_lines /\
  exists ids,
    new_hydrogens [heavy_A; repair hydrogen_same "A"; hydrogen_other] = Ok ids.
Proof.
  split; [reflexivity|]. split; [exact demo_long|].
  exact (X5_new_hydrogens_after_fix demo_lines
           [heavy_A; repair hydrogen_same "A"; hydrogen_other]
           eq_refl demo_long).
Defined.

End StatusExamples.

(** * Further properties of the position key *)

Module KeyMore.
Import Key KeyFacts.
Local Open Scope Z_scope.








End KeyMore.

(** * Further properties of the search for the partner *)

Module SearchMore.
Import HeapFacts MergeSpec SearchFacts MergeFixtures.

(** The loop with the place of the atom it returns: nothing before it is
    as close, nothing after it is closer. *)
Lemma closest_loop_first (h : Heap) (atom : aref) cs : forall r m r' m',
  closest_loop h atom cs r m = (r', m') ->
  (r' = r /\ m' = m /\
   forall c, c ∈ cs -> candidate h atom c -> (m <= dist_to h atom c)%Q) \/
  (exists pre b post,
     cs = pre ++ b :: post /\ r' = Some b /\ m' = dist_to h atom b /\
     candidate h atom b /\ (m' < m)%Q /\
     (forall c, c ∈ pre -> candidate h atom c -> (m' < dist_to h atom c)%Q) /\
     (forall c, c ∈ post -> candidate h atom c -> (m' <= dist_to h atom c)%Q)).
Proof.
  induction cs as [|c cs IH]; intros r m r' m' Hrun; simpl in Hrun.
  - inversion Hrun; subst. left. split; [reflexivity|]. split; [reflexivity|].
    intros c Hc. inversion Hc.
  - destruct (negb (c =? atom) && negb (String.eqb (symbol (get_atom h c)) "H"))
      eqn:Ecand.
    + apply candidate_test in Ecand. fold (dist_to h atom c) in Hrun.
      destruct (Qltb (dist_to h atom c) m) eqn:Elt.
      * apply Qltb_true in Elt. right.
        destruct (IH _ _ _ _ Hrun)
          as [(-> & -> & Hall) |
              (pre & b & post & -> & -> & -> & Hb & Hlt & Hpre & Hpost)].
        -- exists [], c, cs. repeat split; try assumption; try apply Ecand.
           intros x Hx. inversion Hx.
        -- exists (c :: pre), b, post. split; [reflexivity|].
           split; [reflexivity|]. split; [reflexivity|]. split; [exact Hb|].
           split; [eapply Qlt_trans; eassumption|]. split; [|exact Hpost].
           intros x Hx Hcx. apply elem_of_cons in Hx as [-> | Hx];
             [exact Hlt | apply Hpre; assumption].
      * apply Qltb_false in Elt.
        destruct (IH _ _ _ _ Hrun)
          as [(-> & -> & Hall) |
              (pre & b & post & -> & -> & -> & Hb & Hlt & Hpre & Hpost)].
        -- left. split; [reflexivity|]. split; [reflexivity|].
           intros x Hx Hcx. apply elem_of_cons in Hx as [-> | Hx];
             [exact Elt | apply Hall; assumption].
        -- right. exists (c :: pre), b, post. split; [reflexivity|].
           split; [reflexivity|]. split; [reflexivity|]. split; [exact Hb|].
           split; [exact Hlt|]. split; [|exact Hpost].
           intros x Hx Hcx. apply elem_of_cons in Hx as [-> | Hx];
             [eapply Qlt_le_trans; eassumption | apply Hpre; assumption].
    + assert (~ candidate h atom c) as Hnc.
      { intros Hc. apply candidate_test in Hc. congruence. }
      destruct (IH _ _ _ _ Hrun)
        as [(-> & -> & Hall) |
            (pre & b & post & -> & -> & -> & Hb & Hlt & Hpre & Hpost)].
      * left. split; [reflexivity|]. split; [reflexivity|].
        intros x Hx Hcx. apply elem_of_cons in Hx as [-> | Hx];
          [contradiction | apply Hall; assumption].
      * right. exists (c :: pre), b, post. split; [reflexivity|].
        split; [reflexivity|]. split; [reflexivity|]. split; [exact Hb|].
        split; [exact Hlt|]. split; [|exact Hpost].
        intros x Hx Hcx. apply elem_of_cons in Hx as [-> | Hx];
          [contradiction | apply Hpre; assumption].
Qed.

(** X8: the partner returned by the search is an atom of the residue of
    the hydrogen, other than the hydrogen and not itself a hydrogen, at
    the distance returned, which is less than 10000; every candidate before
    it in the residue is strictly farther and every candidate after it is
    at least as far: among the nearest, the first one met wins. *)
Theorem X8_closest_first_wins (h : Heap) (atom b : aref) (d : Q) :
  get_closest_heavy_atom_in_residue h atom = (Some b, d) ->
  exists pre post,
    residue_atoms_of h atom = pre ++ b :: post /\
    b <> atom /\ symbol (get_atom h b) <> "H"%string /\
    d = dist_to h atom b /\ (d < minD0)%Q /\
    (forall c, c ∈ pre -> candidate h atom c -> (d < dist_to h atom c)%Q) /\
    (forall c, c ∈ post -> candidate h atom c -> (d <= dist_to h atom c)%Q).
Proof.
  unfold get_closest_heavy_atom_in_residue. intros Hrun.
  destruct (closest_loop_first _ _ _ _ _ _ _ Hrun)
    as [(Hn & _) | (pre & x & post & Hcs & Hx & Hd & Hc & Hlt & Hpre & Hpost)];
    [discriminate|].
  inversion Hx; subst x. exists pre, post.
  destruct Hc as [Hne Hsym]. repeat split; assumption.
Qed.

Lemma X8_closest_first_wins_witness :
  get_closest_heavy_atom_in_residue heap0 2 = (Some 1, dist_to heap0 2 1) /\
  exists pre post,
    residue_atoms_of heap0 2 = pre ++ 1 :: post /\
    1 <> 2 /\ symbol (get_atom heap0 1) <> "H"%string /\
    dist_to heap0 2 1 = dist_to heap0 2 1 /\ (dist_to heap0 2 1 < minD0)%Q /\
    (forall c, c ∈ pre -> candidate heap0 2 c ->
       (dist_to heap0 2 1 < dist_to heap0 2 c)%Q) /\
    (forall c, c ∈ post -> candidate heap0 2 c ->
       (dist_to heap0 2 1 <= dist_to heap0 2 c)%Q).
Proof.
  split; [reflexivity|].
  exact (X8_closest_first_wins heap0 2 1 (dist_to heap0 2 1) eq_refl).
Defined.

(** X9: the search returns no partner exactly when every candidate of the
    residue is at a distance of 10000 or more, in particular when there is
    none; the distance it then returns is the starting one. *)
Theorem X9_closest_none_iff (h : Heap) (atom : aref) :
  (exists d, get_closest_heavy_atom_in_residue h atom = (None, d)) <->
  (forall c, c ∈ residue_atoms_of h atom -> candidate h atom c ->
     (minD0 <= dist_to h atom c)%Q).
Proof.
  split.
  - intros [d Hrun]. apply (get_closest_none _ _ _ Hrun).
  - intros Hall. unfold get_closest_heavy_atom_in_residue.
    destruct (closest_loop h atom
                (r_atoms (get_residue h (residue (get_atom h atom)))) None minD0)
      as [r m] eqn:Hrun.
    destruct (closest_loop_first _ _ _ _ _ _ _ Hrun)
      as [(-> & -> & _) | (pre & b & post & Hcs & _ & -> & Hb & Hlt & _)].
    + exists minD0. reflexivity.
    + exfalso. apply (Qlt_not_le _ _ Hlt). apply Hall; [|exact Hb].
      unfold residue_atoms_of. rewrite Hcs.
      apply elem_of_app. right. left.
Qed.

End SearchMore.

(** * The index of atoms by position key *)

Module IndexMore.
Import HeapFacts MergeSpec MergeFixtures.

Lemma index_atoms_snoc (h : Heap) (atoms : list aref) (a : aref) :
  index_atoms h (atoms ++ [a]) =
  <[get_position_key (get_atom h a) := a]> (index_atoms h atoms).
Proof. unfold index_atoms. rewrite fold_left_app. reflexivity. Qed.

Lemma index_atoms_sound (h : Heap) (atoms : list aref) (k : PositionKey)
    (a : aref) :
  index_atoms h atoms !! k = Some a ->
  a ∈ atoms /\ get_position_key (get_atom h a) = k.
Proof.
  induction atoms as [|x atoms IH] using rev_ind.
  - unfold index_atoms. simpl. rewrite lookup_empty. discriminate.
  - rewrite index_atoms_snoc, lookup_insert. case_decide as Hk.
    + intros E. inversion E; subst a.
      split; [apply elem_of_app; right; left | exact Hk].
    + intros E. destruct (IH E) as [Hin Hkey].
      split; [apply elem_of_app; left; exact Hin | exact Hkey].
Qed.

Lemma index_atoms_none (h : Heap) (atoms : list aref) (k : PositionKey) :
  index_atoms h atoms !! k = None <->
  forall a, a ∈ atoms -> get_position_key (get_atom h a) <> k.
Proof.
  induction atoms as [|x atoms IH] using rev_ind.
  - unfold index_atoms. simpl. rewrite lookup_empty.
    split; [intros _ a Ha; inversion Ha | reflexivity].
  - rewrite index_atoms_snoc, lookup_insert. case_decide as Hk.
    + split; [discriminate|]. intros Hall. exfalso.
      apply (Hall x); [apply elem_of_app; right; left | exact Hk].
    + rewrite IH. split.
      * intros Hall a Ha. apply elem_of_app in Ha as [Ha | Ha];
          [apply Hall; exact Ha|].
        apply list_elem_of_singleton in Ha. subst a. exact Hk.
      * intros Hall a Ha. apply Hall. apply elem_of_app. left. exact Ha.
Qed.

Lemma index_atoms_last (h : Heap) (pre post : list aref) (a : aref) :
  (forall c, c ∈ post ->
     get_position_key (get_atom h c) <> get_position_key (get_atom h a)) ->
  index_atoms h (pre ++ a :: post) !! get_position_key (get_atom h a) = Some a.
Proof.
  induction post as [|x post IH] using rev_ind; intros Hpost.
  - rewrite index_atoms_snoc. apply lookup_insert_eq.
  - replace (pre ++ a :: post ++ [x]) with ((pre ++ a :: post) ++ [x])
      by (rewrite <- app_assoc; reflexivity).
    rewrite index_atoms_snoc, lookup_insert_ne.
    + apply IH. intros c Hc. apply Hpost. apply elem_of_app. left. exact Hc.
    + apply Hpost. apply elem_of_app. right. left.
Qed.

(** X10: the index built by [add_hydrogens] answers only with atoms it
    was built from: a key found gives an atom of the structure whose
    position key is that key, and a key is missing exactly when no atom
    of the structure has it. *)
Theorem X10_index_lookup (h : Heap) (atoms : list aref) (k : PositionKey) :
  (forall a, index_atoms h atoms !! k = Some a ->
     a ∈ atoms /\ get_position_key (get_atom h a) = k) /\
  (index_atoms h atoms !! k = None <->
     forall a, a ∈ atoms -> get_position_key (get_atom h a) <> k).
Proof.
  split; [intros a; apply index_atoms_sound | apply index_atoms_none].
Qed.

(** X11: when several atoms of the structure have the same position key,
    the index keeps the last of them: an atom is found under its own key
    as soon as no atom after it has that key.  In particular every atom
    of the structure has its key in the index. *)
Theorem X11_index_last_wins (h : Heap) (pre post : list aref) (a : aref) :
  ((forall c, c ∈ post ->
      get_position_key (get_atom h c) <> get_position_key (get_atom h a)) ->
   index_atoms h (pre ++ a :: post) !! get_position_key (get_atom h a)
     = Some a) /\
  (exists a',
     index_atoms h (pre ++ a :: post) !! get_position_key (get_atom h a)
       = Some a' /\
     get_position_key (get_atom h a') = get_position_key (get_atom h a) /\
     (a' = a \/ a' ∈ post)).
Proof.
  split; [apply index_atoms_last|].
  induction post as [|x post IH] using rev_ind.
  - exists a. split; [apply index_atoms_last; intros c Hc; inversion Hc|].
    split; [reflexivity | left; reflexivity].
  - replace (pre ++ a :: post ++ [x]) with ((pre ++ a :: post) ++ [x])
      by (rewrite <- app_assoc; reflexivity).
    rewrite index_atoms_snoc, lookup_insert. case_decide as Hk.
    + exists x. split; [reflexivity|]. split; [exact Hk|].
      right. apply elem_of_app. right. left.
    + destruct IH as (a' & Hl & Hkey & Hin). exists a'.
      split; [exact Hl|]. split; [exact Hkey|].
      destruct Hin as [-> | Hin]; [left; reflexivity | right].
      apply elem_of_app. left. exact Hin.
Qed.

(** Two atoms at the same place: the later one answers for both. *)
Example index_same_place :
  let h := mkHeap [mkAtom "C" 1 origin 0 0 false false 0 1;
                   mkAtom "N" 2 origin 0 0 false false 0 1]
                  [mkResidue [0; 1] []] [] in
  index_atoms h (complex_atoms h [0]) !! (0, 0, 0)%Z = Some 1.
Proof. reflexivity. Qed.

End IndexMore.

(** * Further properties of the merge *)

Module MergeMore.
Import HeapFacts MergeSpec SearchFacts MergeFacts FrameFacts MergeFixtures.

Lemma merge_loop_raises abp (atoms : list aref) (ids : list nat) : forall h,
  Exists (fun id => length atoms <= id) ids ->
  merge_loop abp atoms ids h = Raise IndexError.
Proof.
  induction ids as [|id ids IH]; intros h Hex; [inversion Hex|].
  simpl. unfold merge_step.
  destruct (atoms !! id) as [a|] eqn:Ha; simpl; [|reflexivity].
  apply IH. apply Exists_cons in Hex as [Hid | Hrest]; [|exact Hrest].
  apply lookup_lt_Some in Ha. lia.
Qed.

(** X12: the merge returns when every index of the list is an index of
    an atom of the deserialized structure, as it was when the merge began;
    as soon as one index is not, wherever it stands in the list, the merge
    raises [IndexError]. *)
Theorem X12_match_and_update_errors (abp : gmap PositionKey aref)
    (result_complex : Complex) (hydrogen_ids : list nat) (h : Heap) :
  let atoms := complex_atoms h result_complex in
  (Forall (fun id => id < length atoms) hydrogen_ids ->
   exists h', match_and_update abp result_complex hydrogen_ids h = Ok h') /\
  (Exists (fun id => length atoms <= id) hydrogen_ids ->
   match_and_update abp result_complex hydrogen_ids h = Raise IndexError).
Proof.
  simpl. unfold match_and_update.
  split; [apply merge_loop_total | apply merge_loop_raises].
Qed.

Lemma merge_loop_only_symbol abp (atoms : list aref) (ids : list nat) :
  forall h h',
  merge_loop abp atoms ids h = Ok h' ->
  forall x, x < length (h_atoms h) ->
    get_atom h' x = get_atom h x \/
    get_atom h' x = with_symbol "H" (get_atom h x).
Proof.
  induction ids as [|id ids IH]; intros h h' Hrun x Hx; simpl in Hrun.
  - inversion Hrun. left. reflexivity.
  - unfold merge_step in Hrun.
    destruct (atoms !! id) as [a|] eqn:Ha; simpl in Hrun; [|discriminate].
    pose proof (merge_one_turn abp a h) as Ht.
    pose proof (turn_length _ _ _ Ht) as Hlen.
    assert (x < length (h_atoms (merge_one abp a h))) as Hx' by lia.
    destruct (decide (x = a)) as [-> | Hne].
    + destruct (IH _ _ Hrun a Hx') as [E | E]; rewrite E;
        rewrite (turn_self _ _ _ Ht Hx); right; reflexivity.
    + destruct (IH _ _ Hrun x Hx') as [E | E]; rewrite E;
        rewrite (turn_other _ _ _ _ Ht Hx Hne); [left | right]; reflexivity.
Qed.

(** X13: of an atom that exists when the merge begins, be it of the
    original or of the deserialized structure, the merge changes at most
    the symbol, and only to "H": serial, position, residue and the five
    rendering attributes are those of before. *)
Theorem X13_merge_only_sets_symbol (abp : gmap PositionKey aref)
    (result_complex : Complex) (hydrogen_ids : list nat) (h h' : Heap)
    (x : aref) :
  match_and_update abp result_complex hydrogen_ids h = Ok h' ->
  x < length (h_atoms h) ->
  (symbol (get_atom h' x) = symbol (get_atom h x) \/
   symbol (get_atom h' x) = "H"%string) /\
  serial (get_atom h' x) = serial (get_atom h x) /\
  position (get_atom h' x) = position (get_atom h x) /\
  residue (get_atom h' x) = residue (get_atom h x) /\
  display_mode (get_atom h' x) = display_mode (get_atom h x) /\
  is_het (get_atom h' x) = is_het (get_atom h x) /\
  selected (get_atom h' x) = selected (get_atom h x) /\
  bfactor (get_atom h' x) = bfactor (get_atom h x) /\
  occupancy (get_atom h' x) = occupancy (get_atom h x).
Proof.
  intros Hrun Hx.
  destruct (merge_loop_only_symbol _ _ _ _ _ Hrun x Hx) as [E | E]; rewrite E.
  - split; [left; reflexivity | repeat split].
  - split; [right; reflexivity | repeat split].
Qed.

Lemma turn_budget abp (a : aref) (h : Heap) :
  let h' := merge_one abp a h in
  length (h_atoms h) <= length (h_atoms h') /\
  length (h_log h) <= length (h_log h') /\
  length (h_atoms h') + length (h_log h')
    <= S (length (h_atoms h) + length (h_log h)).
Proof.
  simpl.
  destruct (get_closest_heavy_atom_in_residue h a) as [[b|] d] eqn:Hc.
  - destruct (Qlt_le_dec gate d) as [Hd | Hd].
    + rewrite (merge_one_too_far abp a b h d Hc Hd). simpl.
      rewrite length_alter. lia.
    + destruct (abp !! get_position_key (get_atom h b)) as [src|] eqn:Hk.
      * rewrite (merge_one_accepted abp a b src h d Hc Hd Hk). simpl.
        rewrite length_app, length_alter. simpl. lia.
      * rewrite (merge_one_unknown abp a b h d Hc Hd Hk). simpl.
        rewrite length_app, length_alter. simpl. lia.
  - rewrite (merge_one_no_partner abp a h d Hc). simpl.
    rewrite length_alter. lia.
Qed.

(** X14: the merge never removes an atom or a warning, and each index of
    the list accounts for at most one new atom or one warning, never both:
    the atoms allocated and the warnings logged, together, are no more
    than the indices of the list. *)
Theorem X14_merge_budget (abp : gmap PositionKey aref)
    (result_complex : Complex) (hydrogen_ids : list nat) (h h' : Heap) :
  match_and_update abp result_complex hydrogen_ids h = Ok h' ->
  length (h_atoms h) <= length (h_atoms h') /\
  length (h_log h) <= length (h_log h') /\
  length (h_atoms h') + length (h_log h')
    <= length (h_atoms h) + length (h_log h) + length hydrogen_ids.
Proof.
  unfold match_and_update. generalize (complex_atoms h result_complex).
  intros atoms. revert h.
  induction hydrogen_ids as [|id ids IH]; intros h Hrun; simpl in Hrun.
  - inversion Hrun. simpl. lia.
  - unfold merge_step in Hrun.
    destruct (atoms !! id) as [a|]; simpl in Hrun; [|discriminate].
    pose proof (turn_budget abp a h) as Hb. simpl in Hb.
    pose proof (IH _ Hrun) as Hr. simpl. lia.
Qed.

End MergeMore.

(** * The merge keeps the heap well formed *)

Module WfFacts.
Import HeapFacts MergeSpec SearchFacts MergeFacts FrameFacts HeapSpec.

Lemma wf_set_symbol (h : Heap) (a : aref) (s : string) :
  wf h -> wf (set_symbol h a s).
Proof.
  intros [Hp Ho Hm Hb].
  assert (forall x, residue (get_atom (set_symbol h a s) x)
                    = residue (get_atom h x)) as Hres.
  { intros x. apply (set_symbol_fields h a x s). }
  assert (length (h_atoms (set_symbol h a s)) = length (h_atoms h)) as Hlen
    by (simpl; apply length_alter).
  split.
  - intros x Hx. rewrite Hres. apply Hp. lia.
  - intros x Hx. rewrite Hres. apply Ho. lia.
  - intros r x Hx. rewrite Hlen, Hres. apply (Hm r x Hx).
  - intros r b Hin. rewrite Hlen. apply (Hb r b Hin).
Qed.

Lemma wf_warn (h : Heap) (w : Warning) : wf h -> wf (warn h w).
Proof. intros [Hp Ho Hm Hb]. split; assumption. Qed.

Lemma wf_add_bond (h : Heap) (b : Bond) (r : rref) :
  wf h -> atom1 b < length (h_atoms h) -> atom2 b < length (h_atoms h) ->
  wf (mkHeap (h_atoms h) (alter (residue_add_bond b) r (h_residues h)) (h_log h)).
Proof.
  intros [Hp Ho Hm Hb] H1 H2.
  assert (forall r', r_atoms (get_residue
            (mkHeap (h_atoms h) (alter (residue_add_bond b) r (h_residues h))
                    (h_log h)) r') = r_atoms (get_residue h r')) as Hat.
  { intros r'. unfold get_residue. simpl h_residues. rewrite nth_alter.
    case_decide; reflexivity. }
  split.
  - intros x Hx. simpl. rewrite length_alter. apply Hp. exact Hx.
  - intros x Hx. rewrite Hat. apply Ho. exact Hx.
  - intros r' x Hx. rewrite Hat in Hx. apply (Hm r' x Hx).
  - intros r' b' Hin. unfold get_residue in Hin. simpl h_residues in Hin.
    rewrite nth_alter in Hin. simpl h_atoms. case_decide.
    + simpl in Hin. apply elem_of_app in Hin as [Hin | Hin];
        [apply (Hb r' b' Hin)|].
      apply list_elem_of_singleton in Hin. subst b'. split; assumption.
    + apply (Hb r' b' Hin).
Qed.

Lemma wf_alloc (h : Heap) (new : Atom) (bnd : Bond) (n : nat) :
  wf h -> n = length (h_atoms h) ->
  residue new < length (h_residues h) ->
  atom1 bnd <= n -> atom2 bnd <= n ->
  wf (mkHeap (h_atoms h ++ [new])
             (alter (fun r => residue_add_bond bnd (residue_add_atom n r))
                    (residue new) (h_residues h))
             (h_log h)).
Proof.
  intros [Hp Ho Hm Hb] Hn Hrs H1 H2.
  set (h' := mkHeap (h_atoms h ++ [new])
             (alter (fun r => residue_add_bond bnd (residue_add_atom n r))
                    (residue new) (h_residues h)) (h_log h)).
  assert (length (h_atoms h') = S n) as Hlen
    by (simpl; rewrite length_app; simpl; lia).
  assert (forall x, x < n -> get_atom h' x = get_atom h x) as Hold.
  { intros x Hx. unfold get_atom. simpl. apply app_nth1. lia. }
  assert (get_atom h' n = new) as Hnew.
  { unfold get_atom. simpl. rewrite app_nth2 by lia.
    replace (n - length (h_atoms h)) with 0 by lia. reflexivity. }
  assert (forall r, get_residue h' r =
            if decide (residue new = r /\ r < length (h_residues h))
            then residue_add_bond bnd (residue_add_atom n (get_residue h r))
            else get_residue h r) as Hres.
  { intros r. unfold get_residue, h'. cbn [h_residues]. rewrite nth_alter.
    reflexivity. }
  split.
  - intros x Hx. rewrite Hlen in Hx. simpl h_residues. rewrite length_alter.
    destruct (decide (x = n)) as [-> | Hne].
    + rewrite Hnew. exact Hrs.
    + rewrite Hold by lia. apply Hp. lia.
  - intros x Hx. rewrite Hlen in Hx.
    destruct (decide (x = n)) as [-> | Hne].
    + rewrite Hnew, Hres. case_decide as Hd;
        [|exfalso; apply Hd; split; [reflexivity | exact Hrs]].
      simpl. apply elem_of_app. right. left.
    + rewrite Hold by lia. rewrite Hres. case_decide.
      * simpl. apply elem_of_app. left. apply Ho. lia.
      * apply Ho. lia.
  - intros r x Hx. rewrite Hlen. rewrite Hres in Hx. case_decide as Hd.
    + simpl in Hx. apply elem_of_app in Hx as [Hx | Hx].
      * destruct (Hm r x Hx) as [Hlt Hr]. rewrite Hold by lia.
        split; [lia | exact Hr].
      * apply list_elem_of_singleton in Hx. subst x. rewrite Hnew.
        split; [lia | apply Hd].
    + destruct (Hm r x Hx) as [Hlt Hr]. rewrite Hold by lia.
      split; [lia | exact Hr].
  - intros r b Hin. rewrite Hlen. rewrite Hres in Hin. case_decide.
    + simpl in Hin. apply elem_of_app in Hin as [Hin | Hin].
      * destruct (Hb r b Hin). split; lia.
      * apply list_elem_of_singleton in Hin. subst b. split; lia.
    + destruct (Hb r b Hin). split; lia.
Qed.

(** One turn of the loop keeps the heap well formed. *)
Lemma merge_one_wf (abp : gmap PositionKey aref) (a : aref) (h : Heap) :
  wf h -> a < length (h_atoms h) ->
  (forall k src, abp !! k = Some src -> src < length (h_atoms h)) ->
  wf (merge_one abp a h).
Proof.
  intros Hwf Ha Habp.
  pose proof (wf_set_symbol h a "H" Hwf) as Hwf1.
  assert (length (h_atoms (set_symbol h a "H")) = length (h_atoms h)) as Hlen
    by (simpl; apply length_alter).
  destruct (get_closest_heavy_atom_in_residue h a) as [[b|] d] eqn:Hc.
  2:{ rewrite (merge_one_no_partner abp a h d Hc). exact Hwf1. }
  destruct (Qlt_le_dec gate d) as [Hd | Hd].
  { rewrite (merge_one_too_far abp a b h d Hc Hd). exact Hwf1. }
  assert (b < length (h_atoms h)) as Hb.
  { destruct (get_closest_some _ _ _ _ Hc) as (Hin & _).
    apply (wf_member h Hwf _ _ Hin). }
  pose proof (wf_add_bond (set_symbol h a "H") (mkBond CovalentSingle a b)
                (residue (get_atom (set_symbol h a "H") b)) Hwf1) as Hwf2.
  simpl atom1 in Hwf2. simpl atom2 in Hwf2.
  specialize (Hwf2 ltac:(lia) ltac:(lia)).
  destruct (abp !! get_position_key (get_atom h b)) as [src|] eqn:Hk.
  - rewrite (merge_one_accepted abp a b src h d Hc Hd Hk).
    pose proof (Habp _ _ Hk) as Hsrc.
    pose proof (wf_alloc _
      (new_hydrogen (get_atom (set_symbol h a "H") a)
                    (get_atom (set_symbol h a "H") src))
      (mkBond CovalentSingle src (length (h_atoms h)))
      (length (h_atoms h)) Hwf2) as Hwf3.
    simpl in Hwf3. rewrite !length_alter in Hwf3.
    apply Hwf3; [reflexivity | | lia | lia].
    apply (wf_parent _ Hwf1). lia.
  - rewrite (merge_one_unknown abp a b h d Hc Hd Hk).
    apply wf_warn. exact Hwf2.
Qed.

Lemma merge_loop_wf (abp : gmap PositionKey aref) (atoms : list aref)
    (ids : list nat) : forall h h',
  wf h ->
  Forall (fun a => a < length (h_atoms h)) atoms ->
  (forall k src, abp !! k = Some src -> src < length (h_atoms h)) ->
  merge_loop abp atoms ids h = Ok h' ->
  wf h'.
Proof.
  induction ids as [|id ids IH]; intros h h' Hwf Hat Habp Hrun; simpl in Hrun.
  - inversion Hrun; subst. exact Hwf.
  - unfold merge_step in Hrun.
    destruct (atoms !! id) as [a|] eqn:Ha; simpl in Hrun; [|discriminate].
    assert (a < length (h_atoms h)) as Hlt.
    { apply (proj1 (Forall_forall _ _) Hat a).
      apply list_elem_of_lookup. exists id. exact Ha. }
    pose proof (turn_length _ _ _ (merge_one_turn abp a h)) as Hlen.
    apply (IH (merge_one abp a h) h').
    + apply merge_one_wf; assumption.
    + eapply Forall_impl; [exact Hat|]. simpl. intros; lia.
    + intros k src Hk. pose proof (Habp k src Hk). lia.
    + exact Hrun.
Qed.

Lemma elem_of_complex_atoms (h : Heap) (c : Complex) (a : aref) :
  a ∈ complex_atoms h c <-> exists r, r ∈ c /\ a ∈ r_atoms (get_residue h r).
Proof.
  unfold complex_atoms. induction c as [|r c IH]; simpl.
  - split; [intros H; inversion H | intros (r & H & _); inversion H].
  - rewrite elem_of_app, IH. split.
    + intros [H | (r' & Hr' & H)].
      * exists r. split; [left | exact H].
      * exists r'. split; [right; exact Hr' | exact H].
    + intros (r' & Hr' & H). apply elem_of_cons in Hr' as [-> | Hr'].
      * left. exact H.
      * right. exists r'. split; assumption.
Qed.

Lemma wf_complex_atoms (h : Heap) (c : Complex) :
  wf h -> Forall (fun a => a < length (h_atoms h)) (complex_atoms h c).
Proof.
  intros Hwf. apply Forall_forall. intros a Ha.
  apply elem_of_complex_atoms in Ha as (r & _ & Ha).
  apply (wf_member h Hwf r a Ha).
Qed.

(** X15: the merge keeps a well-formed heap well formed, the index
    answering with atoms of the heap: at the end every atom, the
    hydrogens allocated by the merge included, names a residue of the heap
    and is among the atoms of that residue, and the ends of every bond,
    the bonds added included, are atoms of the heap. *)
Theorem X15_merge_keeps_wf (abp : gmap PositionKey aref)
    (result_complex : Complex) (hydrogen_ids : list nat) (h h' : Heap) :
  wf h ->
  (forall k src, abp !! k = Some src -> src < length (h_atoms h)) ->
  match_and_update abp result_complex hydrogen_ids h = Ok h' ->
  wf h'.
Proof.
  intros Hwf Habp Hrun.
  apply (merge_loop_wf abp (complex_atoms h result_complex) hydrogen_ids h h');
    [exact Hwf | apply wf_complex_atoms; exact Hwf | exact Habp | exact Hrun].
Qed.

(** The index built from a structure of a well-formed heap answers with
    atoms of the heap. *)
Lemma index_atoms_valid (h : Heap) (c : Complex) (k : PositionKey) (src : aref) :
  wf h -> index_atoms h (complex_atoms h c) !! k = Some src ->
  src < length (h_atoms h).
Proof.
  intros Hwf Hk. destruct (IndexMore.index_atoms_sound _ _ _ _ Hk) as [Hin _].
  apply (proj1 (Forall_forall _ _) (wf_complex_atoms h c Hwf) src Hin).
Qed.

End WfFacts.

(** * Where the atoms allocated by the merge come from *)

Module ProvenanceFacts.
Import HeapFacts MergeSpec SearchFacts MergeFacts FrameFacts HeapSpec MergeMore.

(** A turn that allocates an atom allocates exactly one, made of the
    hydrogen of the turn and of an atom the index answers with. *)
Lemma merge_one_alloc (abp : gmap PositionKey aref) (a : aref) (h : Heap) :
  length (h_atoms (merge_one abp a h)) <> length (h_atoms h) ->
  length (h_atoms (merge_one abp a h)) = S (length (h_atoms h)) /\
  exists k src,
    abp !! k = Some src /\
    get_atom (merge_one abp a h) (length (h_atoms h)) =
      new_hydrogen (get_atom (set_symbol h a "H") a)
                   (get_atom (set_symbol h a "H") src).
Proof.
  destruct (get_closest_heavy_atom_in_residue h a) as [[b|] d] eqn:Hc.
  - destruct (Qlt_le_dec gate d) as [Hd | Hd].
    + rewrite (merge_one_too_far abp a b h d Hc Hd). simpl.
      rewrite length_alter. intros H. contradiction.
    + destruct (abp !! get_position_key (get_atom h b)) as [src|] eqn:Hk.
      * rewrite (merge_one_accepted abp a b src h d Hc Hd Hk). intros _.
        split; [simpl; rewrite length_app, length_alter; simpl; lia|].
        exists (get_position_key (get_atom h b)), src.
        split; [exact Hk|].
        unfold get_atom at 1. simpl h_atoms.
        rewrite app_nth2 by (rewrite length_alter; lia).
        rewrite length_alter, Nat.sub_diag. reflexivity.
      * rewrite (merge_one_unknown abp a b h d Hc Hd Hk). simpl.
        rewrite length_alter. intros H. contradiction.
  - rewrite (merge_one_no_partner abp a h d Hc). simpl.
    rewrite length_alter. intros H. contradiction.
Qed.

Lemma new_hydrogen_of (u u0 v v0 : Atom) :
  (u = u0 \/ u = with_symbol "H" u0) ->
  (v = v0 \/ v = with_symbol "H" v0) ->
  new_hydrogen (with_symbol "H" u) (with_symbol "H" v)
  = new_hydrogen (with_symbol "H" u0) v0
  /\ new_hydrogen (with_symbol "H" u) v = new_hydrogen (with_symbol "H" u0) v0.
Proof. intros [-> | ->] [-> | ->]; split; reflexivity. Qed.

Lemma merge_loop_new_atoms (abp : gmap PositionKey aref) (atoms : list aref)
    (h0 : Heap) :
  Forall (fun a => a < length (h_atoms h0)) atoms ->
  (forall k src, abp !! k = Some src -> src < length (h_atoms h0)) ->
  forall ids h h',
  length (h_atoms h0) <= length (h_atoms h) ->
  (forall y, y < length (h_atoms h0) ->
     get_atom h y = get_atom h0 y \/
     get_atom h y = with_symbol "H" (get_atom h0 y)) ->
  merge_loop abp atoms ids h = Ok h' ->
  forall x, length (h_atoms h) <= x < length (h_atoms h') ->
  exists id a k src,
    id ∈ ids /\ atoms !! id = Some a /\ abp !! k = Some src /\
    get_atom h' x = new_hydrogen (with_symbol "H" (get_atom h0 a))
                                 (get_atom h0 src).
Proof.
  intros Hat Habp ids.
  induction ids as [|id ids IH]; intros h h' Hlen Hinv Hrun x Hx;
    simpl in Hrun.
  - inversion Hrun; subst h'. lia.
  - unfold merge_step in Hrun.
    destruct (atoms !! id) as [a|] eqn:Ha; simpl in Hrun; [|discriminate].
    assert (a < length (h_atoms h0)) as Ha0.
    { apply (proj1 (Forall_forall _ _) Hat a).
      apply list_elem_of_lookup. exists id. exact Ha. }
    pose proof (merge_one_turn abp a h) as Ht.
    pose proof (turn_length _ _ _ Ht) as Hlen1.
    set (h1 := merge_one abp a h) in *.
    assert (forall y, y < length (h_atoms h0) ->
              get_atom h1 y = get_atom h0 y \/
              get_atom h1 y = with_symbol "H" (get_atom h0 y)) as Hinv1.
    { intros y Hy. destruct (decide (y = a)) as [-> | Hne].
      - right. rewrite (turn_self _ _ _ Ht) by lia.
        destruct (Hinv a Hy) as [-> | ->]; reflexivity.
      - rewrite (turn_other _ _ _ _ Ht) by (lia || assumption).
        apply Hinv. exact Hy. }
    destruct (le_lt_dec (length (h_atoms h1)) x) as [Hge | Hlt].
    + assert (length (h_atoms h0) <= length (h_atoms h1)) as Hl1 by lia.
      assert (length (h_atoms h1) <= x < length (h_atoms h')) as Hx1 by lia.
      destruct (IH h1 h' Hl1 Hinv1 Hrun x Hx1)
        as (id' & a' & k & src & Hid & Ha' & Hk & Hnew).
      exists id', a', k, src. split; [right; exact Hid|].
      split; [exact Ha'|]. split; [exact Hk | exact Hnew].
    + assert (length (h_atoms h1) <> length (h_atoms h)) as Hgrow by lia.
      destruct (merge_one_alloc abp a h Hgrow) as (HS & k & src & Hk & Hnew).
      fold h1 in HS, Hnew.
      assert (x = length (h_atoms h)) as -> by lia.
      exists id, a, k, src. split; [left|]. split; [exact Ha|].
      split; [exact Hk|].
      destruct (merge_loop_frame _ _ _ _ _ Hrun) as (_ & _ & Hother & _).
      rewrite Hother; [|lia|].
      2:{ intros Hin. pose proof (proj1 (Forall_forall _ _) Hat _ Hin) as Hc.
          simpl in Hc. lia. }
      rewrite Hnew.
      pose proof (Habp k src Hk) as Hsrc.
      rewrite (get_atom_set_symbol h a a), (get_atom_set_symbol h a src).
      case_decide as Hd1; [|exfalso; apply Hd1; split; [reflexivity | lia]].
      case_decide as Hd2.
      * apply (new_hydrogen_of _ _ _ _ (Hinv a Ha0) (Hinv src Hsrc)).
      * apply (new_hydrogen_of _ _ _ _ (Hinv a Ha0) (Hinv src Hsrc)).
Qed.

(** X16: every atom the merge allocates is a hydrogen made of two atoms
    that existed when the merge began: it has the symbol "H" and the
    serial and position of the deserialized atom at one of the listed
    indices, and the residue and the five rendering attributes of an atom
    the index answers with. *)
Theorem X16_new_atoms_provenance (abp : gmap PositionKey aref)
    (result_complex : Complex) (hydrogen_ids : list nat) (h h' : Heap)
    (x : aref) :
  wf h ->
  (forall k src, abp !! k = Some src -> src < length (h_atoms h)) ->
  match_and_update abp result_complex hydrogen_ids h = Ok h' ->
  length (h_atoms h) <= x < length (h_atoms h') ->
  exists id a k src,
    id ∈ hydrogen_ids /\ (complex_atoms h result_complex) !! id = Some a /\
    abp !! k = Some src /\
    get_atom h' x = new_hydrogen (with_symbol "H" (get_atom h a))
                                 (get_atom h src).
Proof.
  intros Hwf Habp Hrun Hx.
  apply (merge_loop_new_atoms abp (complex_atoms h result_complex) h
           (WfFacts.wf_complex_atoms h result_complex Hwf) Habp
           hydrogen_ids h h' (Nat.le_refl _)); [|exact Hrun | exact Hx].
  intros y _. left. reflexivity.
Qed.

End ProvenanceFacts.

(** * One structure through [add_hydrogens] *)

Module BatchMore.
Import Text TextSpec TextFacts RepairFacts TextMore StatusMore.
Import HeapFacts MergeSpec FrameFacts.

(** X17: for one structure, when the tool exits with code 0, the lines it
    wrote can all be read and repaired (every status column absent, blank
    or a digit, every marked line after the first with a chain-bearing
    line before it, every marked line of 58 characters or more) and the
    deserializer gives an atom for every index identified, [add_hydrogens]
    returns without raising: it is the merge of the hydrogens identified
    in the repaired lines, which are those of the lines the tool wrote,
    into the heap of the deserializer, with the index of the structure
    built beforehand. *)
Theorem X17_add_hydrogens_returns
    (run_haad : Heap -> Complex -> Z * list line)
    (from_pdb : list line -> Heap -> Complex * Heap)
    (c : Complex) (h : Heap) (lines : list line) :
  run_haad h c = (0%Z, lines) ->
  Forall (fun l => status_ok l = true) lines ->
  chains_found lines ->
  Forall (fun l => marked l = true -> 58 <= length l) lines ->
  (forall fixed ids,
     fix_haad_chains lines = Ok fixed -> new_hydrogens fixed = Ok ids ->
     Forall (fun id => id < length (complex_atoms (snd (from_pdb fixed h))
                                                  (fst (from_pdb fixed h))))
            ids) ->
  exists fixed ids h',
    fix_haad_chains lines = Ok fixed /\
    new_hydrogens lines = Ok ids /\
    match_and_update (index_atoms h (complex_atoms h c))
      (fst (from_pdb fixed h)) ids (snd (from_pdb fixed h)) = Ok h' /\
    add_hydrogens run_haad from_pdb [c] h = Ok h'.
Proof.
  intros Hrun Hok Hfound Hlong Hatoms.
  destruct (fix_loop_spec lines Hfound lines [] 0 None lines)
    as (fixed & Hfix & _);
    [reflexivity | reflexivity | reflexivity | reflexivity |
     congruence | exact Hok |].
  fold (fix_haad_chains lines) in Hfix.
  destruct (new_hydrogens_after_fix lines fixed Hfix Hlong) as [Hsame [ids Hids]].
  pose proof (Hatoms fixed ids Hfix Hids) as Hrange.
  destruct (merge_loop_total (index_atoms h (complex_atoms h c)) _ ids
              (snd (from_pdb fixed h)) Hrange) as [h' Hmerge].
  exists fixed, ids, h'.
  split; [exact Hfix|]. split; [rewrite <- Hsame; exact Hids|].
  split; [exact Hmerge|].
  simpl. unfold call_HAAD. rewrite Hrun. simpl. rewrite Hfix. simpl.
  destruct (from_pdb fixed h) as [hydrogenated h1] eqn:Hfrom.
  rewrite Hids. simpl. simpl in Hmerge.
  unfold match_and_update in *. rewrite Hmerge. reflexivity.
Qed.



End BatchMore.

(** * The further properties on the examples *)

Module MoreExamples.
Import Text TextSpec TextFacts RepairFacts TextMore StatusMore StatusExamples
       Fixtures.
Import HeapFacts MergeSpec FrameFacts HeapSpec MergeFixtures MergeMore WfFacts
       ProvenanceFacts BatchMore.

Lemma merge_heap0 :
  match_and_update index0 deserialized [1; 2; 3; 5] heap0 = Ok heap1.
Proof. reflexivity. Defined.

Lemma wf_heap0 : wf heap0.
Proof.
  split.
  - intros a Ha.
    do 7 (destruct a as [|a]; [repeat constructor|]).
    simpl in Ha. lia.
  - intros a Ha.
    do 7 (destruct a as [|a]; [repeat constructor|]).
    simpl in Ha. lia.
  - intros r a Hin.
    do 4 (destruct r as [|r];
          [repeat (apply elem_of_cons in Hin as [-> | Hin];
                   [split; [repeat constructor | reflexivity]|]);
           inversion Hin|]).
    destruct r; inversion Hin.
  - intros r b Hin.
    do 4 (destruct r as [|r]; [inversion Hin|]).
    destruct r; inversion Hin.
Defined.

Lemma index0_valid (k : PositionKey) (src : aref) :
  index0 !! k = Some src -> src < length (h_atoms heap0).
Proof. apply index_atoms_valid. exact wf_heap0. Defined.

Lemma X13_merge_only_sets_symbol_witness :
  match_and_update index0 deserialized [1; 2; 3; 5] heap0 = Ok heap1 /\
  4 < length (h_atoms heap0) /\
  (symbol (get_atom heap1 4) = symbol (get_atom heap0 4) \/
   symbol (get_atom heap1 4) = "H"%string) /\
  serial (get_atom heap1 4) = serial (get_atom heap0 4) /\
  position (get_atom heap1 4) = position (get_atom heap0 4) /\
  residue (get_atom heap1 4) = residue (get_atom heap0 4) /\
  display_mode (get_atom heap1 4) = display_mode (get_atom heap0 4) /\
  is_het (get_atom heap1 4) = is_het (get_atom heap0 4) /\
  selected (get_atom heap1 4) = selected (get_atom heap0 4) /\
  bfactor (get_atom heap1 4) = bfactor (get_atom heap0 4) /\
  occupancy (get_atom heap1 4) = occupancy (get_atom heap0 4).
Proof.
  assert (4 < length (h_atoms heap0)) as H by (repeat constructor).
  split; [exact merge_heap0|]. split; [exact H|].
  exact (X13_merge_only_sets_symbol index0 deserialized [1; 2; 3; 5]
           heap0 heap1 4 merge_heap0 H).
Defined.

Lemma X14_merge_budget_witness :
  match_and_update index0 deserialized [1; 2; 3; 5] heap0 = Ok heap1 /\
  length (h_atoms heap0) <= length (h_atoms heap1) /\
  length (h_log heap0) <= length (h_log heap1) /\
  length (h_atoms heap1) + length (h_log heap1)
    <= length (h_atoms heap0) + length (h_log heap0) + length [1; 2; 3; 5].
Proof.
  split; [exact merge_heap0|].
  exact (X14_merge_budget index0 deserialized [1; 2; 3; 5] heap0 heap1
           merge_heap0).
Defined.

Lemma X15_merge_keeps_wf_witness :
  wf heap0 /\
  (forall k src, index0 !! k = Some src -> src < length (h_atoms heap0)) /\
  match_and_update index0 deserialized [1; 2; 3; 5] heap0 = Ok heap1 /\
  wf heap1.
Proof.
  split; [exact wf_heap0|]. split; [exact index0_valid|].
  split; [exact merge_heap0|].
  exact (X15_merge_keeps_wf index0 deserialized [1; 2; 3; 5] heap0 heap1
           wf_heap0 index0_valid merge_heap0).
Defined.

Lemma X16_new_atoms_provenance_witness :
  wf heap0 /\
  (forall k src, index0 !! k = Some src -> src < length (h_atoms heap0)) /\
  match_and_update index0 deserialized [1; 2; 3; 5] heap0 = Ok heap1 /\
  length (h_atoms heap0) <= 7 < length (h_atoms heap1) /\
  exists id a k src,
    id ∈ [1; 2; 3; 5] /\ (complex_atoms heap0 deserialized) !! id = Some a /\
    index0 !! k = Some src /\
    get_atom heap1 7 = new_hydrogen (with_symbol "H" (get_atom heap0 a))
                                    (get_atom heap0 src).
Proof.
  assert (length (h_atoms heap0) <= 7 < length (h_atoms heap1)) as H
    by (split; repeat constructor).
  split; [exact wf_heap0|]. split; [exact index0_valid|].
  split; [exact merge_heap0|]. split; [exact H|].
  exact (X16_new_atoms_provenance index0 deserialized [1; 2; 3; 5] heap0 heap1 7
           wf_heap0 index0_valid merge_heap0 H).
Defined.

Lemma demo_atoms_enough (fixed : list line) (ids : list nat) :
  fix_haad_chains demo_lines = Ok fixed -> new_hydrogens fixed = Ok ids ->
  Forall (fun id => id < length (complex_atoms
                                   (snd (from_pdb_demo fixed heap0))
                                   (fst (from_pdb_demo fixed heap0)))) ids.
Proof.
  intros Hfix Hids.
  pose proof (new_hydrogens_in_range _ _ Hids) as Hr.
  destruct (fix_haad_chains_expected _ _ Hfix) as [Hlen _].
  eapply Forall_impl; [exact Hr|]. simpl. rewrite Hlen. simpl. intros; lia.
Defined.

Lemma X17_add_hydrogens_returns_witness :
  run_demo heap0 original = (0%Z, demo_lines) /\
  Forall (fun l => status_ok l = true) demo_lines /\
  chains_found demo_lines /\
  Forall (fun l => marked l = true -> 58 <= length l) demo_lines /\
  exists fixed ids h',
    fix_haad_chains demo_lines = Ok fixed /\
    new_hydrogens demo_lines = Ok ids /\
    match_and_update (index_atoms heap0 (complex_atoms heap0 original))
      (fst (from_pdb_demo fixed heap0)) ids (snd (from_pdb_demo fixed heap0))
      = Ok h' /\
    add_hydrogens run_demo from_pdb_demo [original] heap0 = Ok h'.
Proof.
  split; [reflexivity|]. split; [exact RepairExamples.demo_status_ok|].
  split; [exact RepairExamples.demo_chains_found|]. split; [exact demo_long|].
  exact (X17_add_hydrogens_returns run_demo from_pdb_demo original heap0
           demo_lines eq_refl RepairExamples.demo_status_ok
           RepairExamples.demo_chains_found demo_long
           demo_atoms_enough).
Defined.


End MoreExamples.
